(** * GraphLlama: embedding splicer and token registrar

    A shallow embedding of [graphgpt/model/GraphLlama.py]:
    [GraphLlamaModel.forward] (the embedding splicer) and
    [GraphLlamaForCausalLM.initialize_graph_tokenizer] (the token registrar).

    Conventions.
    - Tensor entries range over an abstract scalar type [T] with the
      operations the code uses ([Scalar]); nothing is assumed about them
      unless a statement lists [ScalarLaws].  The instance used for
      concrete evaluation is [Qc] (exact rationals).
    - A 2-D tensor [[n, d]] is the list of its [n] rows; a 1-D tensor of
      token ids is a [list Z]; positions are [nat].
    - Python exceptions are values of [error]; a computation that may raise
      returns a [result].  Calls into the graph encoder and the projector
      are recorded in an event log ([M]).
    - [detach] only affects gradient tracking; on values it is the identity.
    - The rows that [torch.cat] joins are slices of one embedding sequence
      and projector outputs; their common width [hidden_size] is not
      tracked.  The width that is checked is the one [nn.Linear] reads.
    - [embed_tokens] is total: token ids are ids of the vocabulary. *)

From Stdlib Require Import ZArith QArith Qcanon Ascii String Lia Sorted.
From stdpp Require Import base list strings gmap.

Local Open Scope Z_scope.
Local Open Scope nat_scope.
Local Open Scope string_scope.
Local Open Scope list_scope.

(** ** Exceptions *)

Inductive error : Type :=
| ValueError (msg : string)
| IndexError
| AssertionError
| UnboundLocalError (var : string)
| RuntimeError (msg : string)
| AttributeError
| TypeError.

Inductive result (A : Type) : Type :=
| Ok (a : A)
| Err (e : error).
Arguments Ok {A} a.
Arguments Err {A} e.

#[export] Instance result_ret : MRet result := fun A a => Ok a.
#[export] Instance result_bind : MBind result := fun A B k r =>
  match r with
  | Ok a => k a
  | Err e => Err e
  end.

(** The messages of the four [raise ValueError(...)] of the splicer, and the
    one of the graph-data type check. *)
Definition msg_start_end_count : string :=
  "The number of graph start tokens and graph end tokens should be the same.".
Definition msg_end_follows : string :=
  "The graph end token should follow the graph start token.".
Definition msg_patch_count : string :=
  "The number of graph patch tokens should be the same as the number of graph patches.".
Definition msg_consecutive : string :=
  "The graph patch tokens should be consecutive.".
Definition msg_not_list (tyname : string) : string :=
  "graph_node_reps is expected to be a list but got " ++ tyname.
Definition msg_linear_shape : string :=
  "mat1 and mat2 shapes cannot be multiplied".
Definition msg_stack : string :=
  "stack expects each tensor to be equal size".

(** ** Scalars *)

Class Scalar (T : Type) : Type := {
  szero : T;
  sadd : T -> T -> T;
  smul : T -> T -> T;
  sdiv : T -> T -> T;
  of_nat : nat -> T
}.

(** The two laws of exact arithmetic that make [x + 0 * y] equal to [x]. *)
Class ScalarLaws (T : Type) `{Scalar T} : Prop := {
  smul_0_l : forall x : T, smul szero x = szero;
  sadd_0_r : forall x : T, sadd x szero = x
}.

#[export] Instance Qc_Scalar : Scalar Qc := {
  szero := Q2Qc 0;
  sadd := Qcplus;
  smul := Qcmult;
  sdiv := Qcdiv;
  of_nat n := Q2Qc (inject_Z (Z.of_nat n))
}.

(** ** Python indexing and slicing *)

(** [l[i]] for [0 <= i]. *)
Definition index {A} (l : list A) (i : nat) : result A :=
  match l !! i with
  | Some a => Ok a
  | None => Err IndexError
  end.

(** [l[a:b]] for [0 <= a], [0 <= b]. *)
Definition slice {A} (a b : nat) (l : list A) : list A :=
  take (b - a) (drop a l).

(** [(ids == tok).sum()] *)
Fixpoint eq_sum (tok : Z) (ids : list Z) : nat :=
  match ids with
  | [] => 0
  | t :: rest => (if Z.eqb t tok then 1 else 0) + eq_sum tok rest
  end.

(** [torch.where(ids == tok)[0]], the positions counted from [i]. *)
Fixpoint where_from (tok : Z) (i : nat) (ids : list Z) : list nat :=
  match ids with
  | [] => []
  | t :: rest =>
      if Z.eqb t tok then i :: where_from tok (S i) rest
      else where_from tok (S i) rest
  end.

Definition where_eq (tok : Z) (ids : list Z) : list nat := where_from tok 0 ids.

(** [torch.arange(a, b)] *)
Definition arange (a b : nat) : list nat := seq a (b - a).

(** [(xs != ys).any()] on two index tensors of the same length. *)
Definition any_ne (xs ys : list nat) : bool :=
  existsb (fun xy => negb (Nat.eqb (fst xy) (snd xy))) (zip xs ys).

(** ** Configuration *)

(** [graph_tower.config]: marker ids and the mode flag. *)
Record TowerConfig : Type := {
  graph_patch_token : Z;
  graph_start_token : Z;
  graph_end_token : Z;
  use_graph_start_end : bool
}.

(** The fields of [GraphLlamaConfig] that size the projector. *)
Record ModelConfig : Type := {
  graph_hidden_size : nat;
  hidden_size : nat
}.

Section Splicer.

Context {T : Type} `{ST : Scalar T}.

(** A 2-D tensor, row by row. *)
Local Abbreviation tensor := (list (list T)).

(** [torch.zeros(n, d)] *)
Definition torch_zeros (n d : nat) : tensor := replicate n (replicate d szero).

(** [t.sum()] *)
Definition tensor_sum (t : tensor) : T := fold_left sadd (concat t) szero.

(** [c * t] *)
Definition scale (c : T) (t : tensor) : tensor := map (map (smul c)) t.

(** [t + s] for a 0-d tensor [s] (broadcast). *)
Definition add_scalar (t : tensor) (s : T) : tensor :=
  map (map (fun x => sadd x s)) t.

Definition detach (t : tensor) : tensor := t.

(** ** The projector: [nn.Linear(in_features, out_features)] *)

Record Linear : Type := {
  in_features : nat;
  out_features : nat;
  weight : list (list T);
  bias : list T
}.

(** [nn.Linear(config.graph_hidden_size, config.hidden_size)] with its
    parameters. *)
Definition make_graph_projector (config : ModelConfig)
    (w : list (list T)) (b : list T) : Linear :=
  {| in_features := graph_hidden_size config;
     out_features := hidden_size config;
     weight := w;
     bias := b |}.

Definition dot (x w : list T) : T :=
  fold_left sadd (map (fun xw => smul (fst xw) (snd xw)) (zip x w)) szero.

Definition linear_row (P : Linear) (x : list T) : list T :=
  map (fun wb => sadd (dot x (fst wb)) (snd wb)) (zip (weight P) (bias P)).

(** [P(x)]: the last dimension of [x] must be [in_features]. *)
Definition Linear_forward (P : Linear) (x : tensor) : result tensor :=
  if forallb (fun r => Nat.eqb (length r) (in_features P)) x
  then Ok (map (linear_row P) x)
  else Err (RuntimeError msg_linear_shape).

(** ** The per-sample loop of [GraphLlamaModel.forward] *)

(** The variables that live across iterations of the loop over samples.
    [cur_new_input_embeds] is a local of [forward]: unbound until its first
    assignment, and keeping its value from one sample to the next. *)
Record loop_state : Type := LoopState {
  new_input_embeds : list tensor;
  cur_graph_idx : nat;
  cur_new_input_embeds : option tensor
}.

Definition init_state : loop_state :=
  {| new_input_embeds := []; cur_graph_idx := 0; cur_new_input_embeds := None |}.

(** The merged sequence built for one START position [p] (lines 245-248). *)
Definition merge_start_end (protect : bool) (p : nat)
    (cur_graph_features cur_input_embeds : tensor) : tensor :=
  let num_patches := length cur_graph_features in
  if protect then
    detach (take p cur_input_embeds)
    ++ slice p (p + 1) cur_input_embeds
    ++ cur_graph_features
    ++ slice (p + num_patches + 1) (p + num_patches + 2) cur_input_embeds
    ++ detach (drop (p + num_patches + 2) cur_input_embeds)
  else
    take (p + 1) cur_input_embeds
    ++ cur_graph_features
    ++ drop (p + num_patches + 1) cur_input_embeds.

(** [for graph_start_token_pos in graph_start_tokens: ...] (lines 240-249),
    on the cursor and on [cur_new_input_embeds]. *)
Fixpoint start_end_loop (tc : TowerConfig) (protect : bool)
    (graph_node_features : list tensor)
    (cur_input_ids : list Z) (cur_input_embeds : tensor)
    (graph_start_tokens : list nat)
    (idx : nat) (cur_new : option tensor) : result (nat * option tensor) :=
  match graph_start_tokens with
  | [] => Ok (idx, cur_new)
  | p :: rest =>
      cur_graph_features ← index graph_node_features idx;
      let num_patches := length cur_graph_features in
      t ← index cur_input_ids (p + num_patches + 1);
      if negb (Z.eqb t (graph_end_token tc))
      then Err (ValueError msg_end_follows)
      else
        start_end_loop tc protect graph_node_features
          cur_input_ids cur_input_embeds rest (S idx)
          (Some (merge_start_end protect p cur_graph_features cur_input_embeds))
  end.

(** The merged sequence of patch-only mode (lines 260-263). *)
Definition merge_patch (protect : bool) (mask_index_start : nat)
    (cur_graph_features cur_input_embeds : tensor) : tensor :=
  let num_patches := length cur_graph_features in
  if protect then
    detach (take mask_index_start cur_input_embeds)
    ++ cur_graph_features
    ++ detach (drop (mask_index_start + num_patches) cur_input_embeds)
  else
    take mask_index_start cur_input_embeds
    ++ cur_graph_features
    ++ drop (mask_index_start + num_patches) cur_input_embeds.

(** One iteration of the loop over [zip(input_ids, inputs_embeds)]
    (lines 223-265). *)
Definition splice_sample (tc : TowerConfig) (protect : bool)
    (graph_node_features : list tensor) (dummy_graph_features : tensor)
    (st : loop_state) (sample : list Z * tensor) : result loop_state :=
  let cur_input_ids := fst sample in
  let cur_input_embeds := snd sample in
  if Nat.eqb (eq_sum (graph_patch_token tc) cur_input_ids) 0 then
    let cur_input_embeds' :=
      add_scalar cur_input_embeds
        (tensor_sum (scale szero dummy_graph_features)) in
    Ok {| new_input_embeds := new_input_embeds st ++ [cur_input_embeds'];
          cur_graph_idx := S (cur_graph_idx st);
          cur_new_input_embeds := cur_new_input_embeds st |}
  else if use_graph_start_end tc then
    _ ← index graph_node_features (cur_graph_idx st);
    if negb (Nat.eqb (eq_sum (graph_start_token tc) cur_input_ids)
                     (eq_sum (graph_end_token tc) cur_input_ids))
    then Err (ValueError msg_start_end_count)
    else
      let graph_start_tokens := where_eq (graph_start_token tc) cur_input_ids in
      '(idx, cur_new) ←
          start_end_loop tc protect graph_node_features
            cur_input_ids cur_input_embeds graph_start_tokens
            (cur_graph_idx st) (cur_new_input_embeds st);
      match cur_new with
      | None => Err (UnboundLocalError "cur_new_input_embeds")
      | Some e =>
          Ok {| new_input_embeds := new_input_embeds st ++ [e];
                cur_graph_idx := idx;
                cur_new_input_embeds := Some e |}
      end
  else
    cur_graph_features ← index graph_node_features (cur_graph_idx st);
    let num_patches := length cur_graph_features in
    if negb (Nat.eqb (eq_sum (graph_patch_token tc) cur_input_ids) num_patches)
    then Err (ValueError msg_patch_count)
    else
      let masked_indices := where_eq (graph_patch_token tc) cur_input_ids in
      mask_index_start ← index masked_indices 0;
      if any_ne masked_indices
           (arange mask_index_start (mask_index_start + num_patches))
      then Err (ValueError msg_consecutive)
      else
        let e := merge_patch protect mask_index_start
                   cur_graph_features cur_input_embeds in
        Ok {| new_input_embeds := new_input_embeds st ++ [e];
              cur_graph_idx := S (cur_graph_idx st);
              cur_new_input_embeds := Some e |}.

(** The whole [for] loop, from a given state. *)
Fixpoint splice_loop (tc : TowerConfig) (protect : bool)
    (graph_node_features : list tensor) (dummy_graph_features : tensor)
    (st : loop_state) (samples : list (list Z * tensor)) : result loop_state :=
  match samples with
  | [] => Ok st
  | s :: rest =>
      st' ← splice_sample tc protect graph_node_features
               dummy_graph_features st s;
      splice_loop tc protect graph_node_features dummy_graph_features st' rest
  end.

(** [torch.stack(ts, dim=0)]: a non-empty list of tensors of one shape. *)
Definition torch_stack (ts : list tensor) : result (list tensor) :=
  match ts with
  | [] => Err (RuntimeError "stack expects a non-empty TensorList")
  | t0 :: _ =>
      if forallb (fun t => Nat.eqb (length t) (length t0)) ts
      then Ok ts
      else Err (RuntimeError msg_stack)
  end.

(** Lines 220-270: the loop, the cursor assertion, the stacking. *)
Definition splice_batch (tc : TowerConfig) (protect : bool)
    (graph_node_features : list tensor) (dummy_graph_features : tensor)
    (input_ids : list (list Z)) (inputs_embeds : list tensor)
    : result (list tensor) :=
  st ← splice_loop tc protect graph_node_features dummy_graph_features
          init_state (zip input_ids inputs_embeds);
  if negb (Nat.eqb (cur_graph_idx st) (length graph_node_features))
  then Err AssertionError
  else torch_stack (new_input_embeds st).

End Splicer.

(** ** [GraphLlamaModel.forward] *)

Section Forward.

Context {T : Type} `{ST : Scalar T}.

Local Abbreviation tensor := (list (list T)).

(** [G]: a [torch_geometric.data.Data] object. *)
Context {G : Type}.

(** The graph encoder is external: a function from a graph to its node
    features, carrying the nested configuration the splicer reads. *)
Record GraphTower : Type := {
  tower_forward : G -> tensor;
  config : TowerConfig
}.

(** The attribute [self.graph_tower]: absent, a tower, or the list
    [[graph_tower]] that [initialize_graph_modules] stores under FSDP. *)
Inductive tower_attr : Type :=
| NoTower
| OneTower (t : GraphTower)
| TowerList (t : GraphTower) (rest : list GraphTower).

Record GraphLlamaModel : Type := {
  graph_tower : tower_attr;
  graph_projector : option (Linear (T := T));
  embed_tokens : Z -> list T;
  training : bool;
  (** whether [getattr(self, 'orig_embeds_params', None)] is not [None] *)
  orig_embeds_params : bool
}.

Definition get_graph_tower (self : GraphLlamaModel) : option GraphTower :=
  match graph_tower self with
  | NoTower => None
  | OneTower t => Some t
  | TowerList t _ => Some t
  end.

(** The argument [graph_data]: [None], an object that is not a list, or a
    list.  A list is taken homogeneous, as [forward] decides by the type of
    its first element: [Data] objects, dicts with keys [graph_1] and
    [graph_2], or [n] objects of another type. *)
Inductive graph_list : Type :=
| DataList (gs : list G)
| DictList (ds : list (G * G))
| OtherList (n : nat).

Inductive graph_arg : Type :=
| GraphNone
| GraphNotList (tyname : string)
| GraphList (gl : graph_list).

Definition graph_list_len (gl : graph_list) : nat :=
  match gl with
  | DataList gs => length gs
  | DictList ds => length ds
  | OtherList n => n
  end.

(** *** Calls into the encoder and the projector, logged *)

Inductive event : Type :=
| CallGraphTower (g : G)
| CallProjector (x : tensor).

Definition M (A : Type) : Type := (list event * result A)%type.

#[export] Instance M_ret : MRet M := fun A a => ([], Ok a).
#[export] Instance M_bind : MBind M := fun A B k m =>
  match m with
  | (l, Ok a) => let r := k a in (l ++ fst r, snd r)
  | (l, Err e) => (l, Err e)
  end.

Definition raise {A} (e : error) : M A := ([], Err e).
Definition lift {A} (r : result A) : M A := ([], r).

Definition call_tower (tw : GraphTower) (g : G) : M tensor :=
  ([CallGraphTower g], Ok (tower_forward tw g)).

Definition call_projector (P : Linear) (x : tensor) : M tensor :=
  ([CallProjector x], Linear_forward P x).

Fixpoint mapM {A B} (f : A -> M B) (l : list A) : M (list B) :=
  match l with
  | [] => mret []
  | a :: rest => b ← f a; bs ← mapM f rest; mret (b :: bs)
  end.

(** Lines 196-206: the encoder on every graph of the list. *)
Definition encode_graphs (tw : GraphTower) (gl : graph_list) : M (list tensor) :=
  if Nat.eqb (graph_list_len gl) 0 then raise IndexError  (* graph_data[0] *)
  else
    match gl with
    | DataList gs => mapM (call_tower tw) gs
    | DictList ds =>
        pairs ← mapM (fun d => node_forward_out_1 ← call_tower tw (fst d);
                               node_forward_out_2 ← call_tower tw (snd d);
                               mret [node_forward_out_1; node_forward_out_2]) ds;
        mret (concat pairs)
    | OtherList _ => mret []
    end.

(** [input_ids.shape[1]] of a batch [[B, L]] with [B >= 1]. *)
Definition shape1 (input_ids : list (list Z)) : nat :=
  match input_ids with
  | [] => 0
  | r :: _ => length r
  end.

(** [forward], up to the call of the decoder backbone: the result is the
    [inputs_embeds] argument handed to [LlamaModel.forward]. *)
Definition forward (self : GraphLlamaModel)
    (input_ids : option (list (list Z)))
    (inputs_embeds : option (list tensor))
    (graph_data : graph_arg) : M (list tensor) :=
  inputs_embeds ←
    match inputs_embeds, input_ids with
    | Some e, _ => mret e
    | None, Some ids => mret (map (map (embed_tokens self)) ids)
    | None, None => raise TypeError
    end;
  match get_graph_tower self with
  | None => mret inputs_embeds
  | Some tw =>
      match input_ids with
      | None => raise AttributeError       (* input_ids.shape *)
      | Some ids =>
          if negb (Nat.eqb (shape1 ids) 1) || training self then
            match graph_data with
            | GraphNone => mret inputs_embeds
            | GraphNotList ty => raise (ValueError (msg_not_list ty))
            | GraphList gl =>
                graph_node_features ← encode_graphs tw gl;
                P ← match graph_projector self with
                    | Some P => mret P
                    | None => raise AttributeError
                    end;
                graph_node_features ←
                  mapM (call_projector P) graph_node_features;
                dummy_graph_features ← call_projector P (torch_zeros 256 128);
                lift (splice_batch (config tw) (orig_embeds_params self)
                        graph_node_features dummy_graph_features
                        ids inputs_embeds)
            end
          else mret inputs_embeds
      end
  end.

End Forward.

(** ** [GraphLlamaForCausalLM.initialize_graph_tokenizer] *)

Definition DEFAULT_GRAPH_PATCH_TOKEN : string := "<g_patch>".
Definition DEFAULT_G_START_TOKEN : string := "<g_start>".
Definition DEFAULT_G_END_TOKEN : string := "<g_end>".

(** The tokenizer's vocabulary: the token of id [i] at position [i]. *)
Definition Tokenizer : Type := list string.

Definition has_token (tok : Tokenizer) (t : string) : bool :=
  existsb (String.eqb t) tok.

(** [tokenizer.add_tokens(news, special_tokens=True)]: appends the tokens
    that are not in the vocabulary yet and returns how many were added. *)
Fixpoint add_tokens (tok : Tokenizer) (news : list string) : Tokenizer * nat :=
  match news with
  | [] => (tok, 0)
  | t :: rest =>
      if has_token tok t then add_tokens tok rest
      else let r := add_tokens (tok ++ [t]) rest in (fst r, S (snd r))
  end.

Fixpoint index_from (t : string) (i : nat) (tok : Tokenizer) : option nat :=
  match tok with
  | [] => None
  | u :: rest => if String.eqb t u then Some i else index_from t (S i) rest
  end.

(** [tokenizer.convert_tokens_to_ids([t])[0]] for a token of the
    vocabulary ([None] stands for the unknown-token id). *)
Definition convert_token_to_id (tok : Tokenizer) (t : string) : option nat :=
  index_from t 0 tok.

Section Registrar.

Context {T : Type} `{ST : Scalar T}.

Local Abbreviation tensor := (list (list T)).

(** [rows.mean(dim=0, keepdim=True)] of a [[m, d]] tensor. *)
Definition column (j : nat) (rows : tensor) : list T :=
  map (fun r => nth j r szero) rows.

Definition mean_dim0 (d : nat) (rows : tensor) : list T :=
  map (fun j => sdiv (fold_left sadd (column j rows) szero)
                     (of_nat (length rows)))
      (seq 0 d).

(** [table[-k:] = row] for [k > 0] (the row is broadcast). *)
Definition assign_last (k : nat) (row : list T) (table : tensor) : tensor :=
  let n := length table in
  take (n - k) table ++ replicate (n - (n - k)) row.

(** [table[-k:] = rows] for [k > 0] and [rows] of the shape of [table[-k:]]. *)
Definition assign_last_rows (k : nat) (rows : tensor) (table : tensor) : tensor :=
  take (length table - k) table ++ rows.

(** [model.resize_token_embeddings(n)]: the first rows are kept, the rows
    the table grows by are initialised by the library ([fresh i] for row [i]). *)
Definition resize (fresh : nat -> list T) (n : nat) (table : tensor) : tensor :=
  take n table ++ map fresh (seq (length table) (n - length table)).

Record CausalLM : Type := {
  embedding_dim : nat;
  input_embeddings : tensor;      (* get_input_embeddings().weight.data *)
  output_embeddings : tensor;     (* get_output_embeddings().weight.data *)
  input_requires_grad : bool;
  output_requires_grad : bool;
  model_orig_embeds_params : option (tensor);
  vision_config : TowerConfig
}.

Definition resize_token_embeddings (fresh_in fresh_out : nat -> list T)
    (n : nat) (self : CausalLM) : CausalLM :=
  {| embedding_dim := embedding_dim self;
     input_embeddings := resize fresh_in n (input_embeddings self);
     output_embeddings := resize fresh_out n (output_embeddings self);
     input_requires_grad := input_requires_grad self;
     output_requires_grad := output_requires_grad self;
     model_orig_embeds_params := model_orig_embeds_params self;
     vision_config := vision_config self |}.

Definition id_of (tok : Tokenizer) (t : string) : Z :=
  match convert_token_to_id tok t with
  | Some i => Z.of_nat i
  | None => 0%Z
  end.

(** Lines 405-415: the mean initialisation of the last [num_new_tokens]
    rows of both tables. *)
Definition mean_init (num_new_tokens : nat) (self : CausalLM) : CausalLM :=
  if Nat.ltb 0 num_new_tokens then
    let input_embeddings_avg :=
      mean_dim0 (embedding_dim self)
        (take (length (input_embeddings self) - num_new_tokens)
              (input_embeddings self)) in
    let output_embeddings_avg :=
      mean_dim0 (embedding_dim self)
        (take (length (output_embeddings self) - num_new_tokens)
              (output_embeddings self)) in
    {| embedding_dim := embedding_dim self;
       input_embeddings :=
         assign_last num_new_tokens input_embeddings_avg (input_embeddings self);
       output_embeddings :=
         assign_last num_new_tokens output_embeddings_avg (output_embeddings self);
       input_requires_grad := input_requires_grad self;
       output_requires_grad := output_requires_grad self;
       model_orig_embeds_params := model_orig_embeds_params self;
       vision_config := vision_config self |}
  else self.

(** Lines 417-422. *)
Definition tune_adapter (tune_graph_mlp_adapter : bool) (self : CausalLM) : CausalLM :=
  if tune_graph_mlp_adapter then
    {| embedding_dim := embedding_dim self;
       input_embeddings := input_embeddings self;
       output_embeddings := output_embeddings self;
       input_requires_grad := true;
       output_requires_grad := false;
       model_orig_embeds_params := Some (input_embeddings self);
       vision_config := vision_config self |}
  else self.

Definition with_input_embeddings (tbl : tensor) (self : CausalLM) : CausalLM :=
  {| embedding_dim := embedding_dim self;
     input_embeddings := tbl;
     output_embeddings := output_embeddings self;
     input_requires_grad := input_requires_grad self;
     output_requires_grad := output_requires_grad self;
     model_orig_embeds_params := model_orig_embeds_params self;
     vision_config := vision_config self |}.

Definition with_vision_config (vc : TowerConfig) (self : CausalLM) : CausalLM :=
  {| embedding_dim := embedding_dim self;
     input_embeddings := input_embeddings self;
     output_embeddings := output_embeddings self;
     input_requires_grad := input_requires_grad self;
     output_requires_grad := output_requires_grad self;
     model_orig_embeds_params := model_orig_embeds_params self;
     vision_config := vc |}.

(** Lines 424-433: the marker rows of a pretrained adapter checkpoint;
    [embed_tokens_weight] is a [[m, d]] tensor given with its width [d]. *)
Definition load_adapter_rows (num_new_tokens : nat)
    (pretrain : option (nat * tensor)) (self : CausalLM) : result CausalLM :=
  match pretrain with
  | None => Ok self
  | Some (d, embed_tokens_weight) =>
      if negb (Nat.eqb num_new_tokens 2) then Err AssertionError
      else if Nat.eqb (length (input_embeddings self)) (length embed_tokens_weight)
              && Nat.eqb (embedding_dim self) d
      then Ok (with_input_embeddings
                 (assign_last_rows num_new_tokens
                    (drop (length embed_tokens_weight - num_new_tokens)
                          embed_tokens_weight)
                    (input_embeddings self)) self)
      else if Nat.eqb (length embed_tokens_weight) num_new_tokens
      then
        if Nat.eqb (embedding_dim self) d
        then Ok (with_input_embeddings
                   (assign_last_rows num_new_tokens embed_tokens_weight
                      (input_embeddings self)) self)
        else Err (RuntimeError "shape mismatch")
      else Err (ValueError "Unexpected embed_tokens_weight shape.")
  end.

Definition initialize_graph_tokenizer (fresh_in fresh_out : nat -> list T)
    (use_start_end : bool) (tokenizer : Tokenizer)
    (tune_graph_mlp_adapter : bool) (pretrain_graph_mlp_adapter : option (nat * tensor))
    (self : CausalLM) : result (CausalLM * Tokenizer) :=
  let vc := vision_config self in
  let vc := {| graph_patch_token := graph_patch_token vc;
               graph_start_token := graph_start_token vc;
               graph_end_token := graph_end_token vc;
               use_graph_start_end := use_start_end |} in
  let self := with_vision_config vc self in
  let tokenizer := fst (add_tokens tokenizer [DEFAULT_GRAPH_PATCH_TOKEN]) in
  let self := resize_token_embeddings fresh_in fresh_out (length tokenizer) self in
  '(self, tokenizer) ←
    (if use_start_end then
       let added := add_tokens tokenizer [DEFAULT_G_START_TOKEN; DEFAULT_G_END_TOKEN] in
       let tokenizer := fst added in
       let num_new_tokens := snd added in
       let self := resize_token_embeddings fresh_in fresh_out (length tokenizer) self in
       let vc := {| graph_patch_token := graph_patch_token (vision_config self);
                    graph_start_token := id_of tokenizer DEFAULT_G_START_TOKEN;
                    graph_end_token := id_of tokenizer DEFAULT_G_END_TOKEN;
                    use_graph_start_end := use_start_end |} in
       let self := with_vision_config vc self in
       let self := mean_init num_new_tokens self in
       let self := tune_adapter tune_graph_mlp_adapter self in
       self ← load_adapter_rows num_new_tokens pretrain_graph_mlp_adapter self;
       Ok (self, tokenizer)
     else Ok (self, tokenizer));
  let vc := {| graph_patch_token := id_of tokenizer DEFAULT_GRAPH_PATCH_TOKEN;
               graph_start_token := graph_start_token (vision_config self);
               graph_end_token := graph_end_token (vision_config self);
               use_graph_start_end := use_graph_start_end (vision_config self) |} in
  Ok (with_vision_config vc self, tokenizer).

End Registrar.

(** ** [GraphLlamaForCausalLM.forward]: logits and loss *)

Section CausalForward.

Context {T : Type} `{ST : Scalar T}.

Local Abbreviation tensor := (list (list T)).

(** [self.lm_head], [nn.Linear(hidden_size, vocab_size, bias=False)], on
    the hidden states [[B, L, hidden_size]]. *)
Definition lm_head (weight : list (list T)) (hidden_states : list tensor)
    : list tensor :=
  map (map (fun h => map (fun w => dot h w) weight)) hidden_states.

(** [logits[..., :-1, :]] flattened by [view(-1, vocab_size)] (lines 347,
    351). *)
Definition shift_logits (logits : list tensor) : tensor :=
  concat (map (fun s => take (length s - 1) s) logits).

(** [labels[..., 1:]] flattened by [view(-1)] (lines 348, 352). *)
Definition shift_labels (labels : list (list Z)) : list Z :=
  concat (map (drop 1) labels).

(** Lines 341-355. [loss_fct] is [CrossEntropyLoss()], a function of the
    flattened logits and labels. *)
Definition logits_and_loss (loss_fct : tensor -> list Z -> T)
    (weight : list (list T)) (hidden_states : list tensor)
    (labels : option (list (list Z))) : list tensor * option T :=
  let logits := lm_head weight hidden_states in
  let loss :=
    match labels with
    | None => None
    | Some labels => Some (loss_fct (shift_logits logits) (shift_labels labels))
    end in
  (logits, loss).

End CausalForward.

(** ** [GraphLlamaForCausalLM.prepare_inputs_for_generation] *)

Section Generation.

Context {T : Type} {G KV : Type}.

Local Abbreviation tensor := (list (list T)).

(** The Python values that occur in [model_inputs] and [kwargs]; [KV] is
    the cache of one layer, [PyCache] the tuple of these. *)
#[warnings="-register-all"]
Inductive pyobj : Type :=
| PyNone
| PyBool (b : bool)
| PyTokens (ids : list (list Z))
| PyEmbeds (e : list tensor)
| PyCache (c : list KV)
| PyMask (m : list (list Z))
| PyData (g : G)
| PyList (l : list pyobj).

Definition of_option {A} (f : A -> pyobj) (o : option A) : pyobj :=
  match o with
  | Some a => f a
  | None => PyNone
  end.

(** [if past_key_values:], on [None] or a tuple. *)
Definition truthy (past_key_values : option (list KV)) : bool :=
  match past_key_values with
  | Some (_ :: _) => true
  | _ => false
  end.

(** [input_ids[:, -1:]] *)
Definition last_tokens (input_ids : list (list Z)) : list (list Z) :=
  map (fun r => drop (length r - 1) r) input_ids.

(** [kwargs.get(key)] and [kwargs.get(key, None)] *)
Definition kwargs_get (kwargs : gmap string pyobj) (key : string) : pyobj :=
  default PyNone (kwargs !! key).

Definition prepare_inputs_for_generation (input_ids : list (list Z))
    (past_key_values : option (list KV)) (attention_mask : option (list (list Z)))
    (inputs_embeds : option (list tensor)) (kwargs : gmap string pyobj)
    : gmap string pyobj :=
  let input_ids :=
    if truthy past_key_values then last_tokens input_ids else input_ids in
  let model_inputs : gmap string pyobj :=
    match inputs_embeds, past_key_values with
    | Some e, None => {[ "inputs_embeds" := PyEmbeds e ]}
    | _, _ => {[ "input_ids" := PyTokens input_ids ]}
    end in
  (* model_inputs.update({...}) *)
  <[ "graph_data" := PyList [kwargs_get kwargs "graph_data"] ]>
    (<[ "attention_mask" := of_option PyMask attention_mask ]>
       (<[ "use_cache" := kwargs_get kwargs "use_cache" ]>
          (<[ "past_key_values" := of_option PyCache past_key_values ]>
             model_inputs))).

End Generation.

(** ** Pretrained graph models and the graph modules of [GraphLlamaModel] *)

(** [k.split('.')[-1]]: the part of [k] after its last dot. *)
Fixpoint last_segment_from (acc k : string) : string :=
  match k with
  | EmptyString => acc
  | String c rest =>
      if Ascii.eqb c "."%char then last_segment_from EmptyString rest
      else last_segment_from (acc ++ String c EmptyString) rest
  end.

Definition last_segment (k : string) : string := last_segment_from EmptyString k.

(** Whether [s] contains a dot. *)
Fixpoint has_dot (s : string) : bool :=
  match s with
  | EmptyString => false
  | String c rest => Ascii.eqb c "."%char || has_dot rest
  end.

Section GraphModules.

Context {T : Type} `{ST : Scalar T} {G : Type}.

Local Abbreviation tensor := (list (list T)).

(** Values of a JSON configuration ([V]) and tensors of a checkpoint ([P])
    are opaque.  [Args] is a [GraphPretrainConfig], a bag of attributes;
    [StateDict] a [state_dict]. *)
Context {V P Clip : Type}.

Local Abbreviation Args := (gmap string V).
Local Abbreviation StateDict := (gmap string P).

(** What [graphgpt.model.graph_layers] and [torch] provide: the
    constructors of the encoders, [load_state_dict] on an encoder and on a
    CLIP model, [clip_graph.gnn.state_dict()], and the attribute
    [W_P.out_features] of an encoder ([None]: no attribute [W_P]). *)
Variable MPNN : nat -> nat -> nat -> GraphTower (T := T) (G := G).
Variable GNN graph_transformer : Args -> GraphTower (T := T) (G := G).
Variable load_state_dict :
  GraphTower (T := T) (G := G) -> StateDict -> result (GraphTower (T := T) (G := G)).
Variable CLIP : Args -> Clip.
Variable clip_load_state_dict : Clip -> StateDict -> result Clip.
Variable clip_gnn_state_dict : Clip -> StateDict.
Variable W_P_out_features : GraphTower (T := T) (G := G) -> option nat.

(** The initial parameters [nn.Linear(i, o)] draws. *)
Variable init_weight : nat -> nat -> list (list T).
Variable init_bias : nat -> nat -> list T.

(** A directory of a pretrained model: the content of [config.json] when
    the file exists, and the content of the files [glob] finds for
    [*.pkl], in the order [glob] lists them. *)
Record PretrainDir : Type := {
  config_json : option Args;
  pkl_files : list StateDict
}.

Variable fs : string -> PretrainDir.

(** [GraphPretrainConfig(dictionary)]: every entry becomes an attribute. *)
Definition GraphPretrainConfig (dictionary : Args) : Args := dictionary.

Definition load_model_pretrained (model_name : Args -> Clip)
    (pretrain_model_path : string) : result (Clip * Args) :=
  match config_json (fs pretrain_model_path) with
  | None => Err AssertionError                       (* 'config.json missing' *)
  | Some config_dict =>
      let args := GraphPretrainConfig config_dict in
      let model := model_name args in
      state_dict ← index (pkl_files (fs pretrain_model_path)) 0;
      let state_dict :=
        if decide (is_Some (state_dict !! "logit_scale"))
        then delete "logit_scale" state_dict
        else state_dict in
      model ← clip_load_state_dict model state_dict;
      Ok (model, args)
  end.

Definition transfer_param_tograph (clip_graph : Clip)
    (gnn : GraphTower (T := T) (G := G)) : result (GraphTower (T := T) (G := G)) :=
  load_state_dict gnn (clip_gnn_state_dict clip_graph).

(** The attributes of the configuration that the graph modules read and
    write; [None] is an attribute that is not set. *)
Record GConfig : Type := {
  cfg_graph_tower : option string;
  cfg_graph_hidden_size : option nat;
  cfg_hidden_size : nat;
  cfg_pretrain_graph_model_path : option string;
  cfg_use_graph_proj : option bool;
  cfg_graph_select_layer : option Z
}.

(** Reading an attribute of the configuration. *)
Definition getattr {A} (o : option A) : result A :=
  match o with
  | Some a => Ok a
  | None => Err AttributeError
  end.

Definition new_Linear (i o : nat) : Linear (T := T) :=
  make_graph_projector {| graph_hidden_size := i; hidden_size := o |}
    (init_weight i o) (init_bias i o).

(** The graph modules of a [GraphLlamaModel]: the attribute [graph_tower],
    the attribute [graph_projector] and the configuration. *)
Record GraphModel : Type := {
  gm_graph_tower : tower_attr (T := T) (G := G);
  gm_graph_projector : option (Linear (T := T));
  gm_config : GConfig
}.

(** [GraphLlamaModel.__init__] (lines 83-110). *)
Definition GraphLlamaModel_init (config : GConfig) : result GraphModel :=
  graph_tower ←
    match cfg_graph_tower config with
    | None => Ok NoTower
    | Some tag =>
        if String.eqb tag "MPNN" then
          ghs ← getattr (cfg_graph_hidden_size config);
          Ok (OneTower (MPNN ghs (ghs * 2) ghs))
        else if String.eqb tag "clip_gcn_arxiv" then
          path ← getattr (cfg_pretrain_graph_model_path config);
          r ← load_model_pretrained CLIP path;
          t ← transfer_param_tograph (fst r) (GNN (snd r));
          Ok (OneTower t)
        else if String.eqb tag "clip_gt" then
          path ← getattr (cfg_pretrain_graph_model_path config);
          r ← load_model_pretrained CLIP path;
          t ← transfer_param_tograph (fst r) (graph_transformer (snd r));
          Ok (OneTower t)
        else if String.eqb tag "clip_gt_arxiv" then
          path ← getattr (cfg_pretrain_graph_model_path config);
          r ← load_model_pretrained CLIP path;
          t ← transfer_param_tograph (fst r) (graph_transformer (snd r));
          Ok (OneTower t)
        else if String.eqb tag "clip_gt_arxiv_pub" then
          path ← getattr (cfg_pretrain_graph_model_path config);
          r ← load_model_pretrained CLIP path;
          t ← transfer_param_tograph (fst r) (graph_transformer (snd r));
          Ok (OneTower t)
        else Ok NoTower
    end;
  graph_projector ←
    match cfg_use_graph_proj config with
    | None => Ok None
    | Some _ =>
        ghs ← getattr (cfg_graph_hidden_size config);
        Ok (Some (new_Linear ghs (cfg_hidden_size config)))
    end;
  Ok {| gm_graph_tower := graph_tower;
        gm_graph_projector := graph_projector;
        gm_config := config |}.

(** The local variable [graph_tower] of [initialize_graph_modules]: the
    tag it is called with, an encoder, or the list found in the attribute. *)
Inductive local_tower : Type :=
| LocalTag (tag : string)
| LocalTower (t : GraphTower (T := T) (G := G))
| LocalList (t : GraphTower (T := T) (G := G))
            (rest : list (GraphTower (T := T) (G := G))).

Definition set_config_tower (tag : string) (c : GConfig) : GConfig :=
  {| cfg_graph_tower := Some tag;
     cfg_graph_hidden_size := cfg_graph_hidden_size c;
     cfg_hidden_size := cfg_hidden_size c;
     cfg_pretrain_graph_model_path := cfg_pretrain_graph_model_path c;
     cfg_use_graph_proj := cfg_use_graph_proj c;
     cfg_graph_select_layer := cfg_graph_select_layer c |}.

Definition set_config_proj (sel : Z) (ghs : nat) (c : GConfig) : GConfig :=
  {| cfg_graph_tower := cfg_graph_tower c;
     cfg_graph_hidden_size := Some ghs;
     cfg_hidden_size := cfg_hidden_size c;
     cfg_pretrain_graph_model_path := cfg_pretrain_graph_model_path c;
     cfg_use_graph_proj := Some true;
     cfg_graph_select_layer := Some sel |}.

(** A tensor of an adapter checkpoint. *)
Inductive adapter_param : Type :=
| Matrix (m : list (list T))
| Vector (v : list T).

(** [{k.split('.')[-1]: v for k, v in weights.items()}]: a later entry
    replaces an earlier one of the same key. *)
Definition by_last_segment (weights : list (string * adapter_param))
    : gmap string adapter_param :=
  fold_left (fun d kv => <[ last_segment (fst kv) := snd kv ]> d) weights ∅.

(** [linear.load_state_dict(d)]: the keys are [weight] and [bias] and the
    shapes those of the layer. *)
Definition Linear_load_state_dict (L : Linear (T := T))
    (d : gmap string adapter_param) : result (Linear (T := T)) :=
  match d !! "weight", d !! "bias" with
  | Some (Matrix w), Some (Vector b) =>
      if Nat.eqb (size d) 2
         && Nat.eqb (length w) (out_features L)
         && forallb (fun r => Nat.eqb (length r) (in_features L)) w
         && Nat.eqb (length b) (out_features L)
      then Ok {| in_features := in_features L;
                 out_features := out_features L;
                 weight := w;
                 bias := b |}
      else Err (RuntimeError "Error(s) in loading state_dict")
  | _, _ => Err (RuntimeError "Error(s) in loading state_dict")
  end.

(** [initialize_graph_modules] (lines 121-164). [fsdp] is [None] or a list;
    [pretrain_graph_mlp_adapter] the content of the adapter file, when a
    path is given. *)
Definition initialize_graph_modules (self : GraphModel) (graph_tower : string)
    (graph_select_layer : Z)
    (pretrain_graph_mlp_adapter : option (list (string * adapter_param)))
    (fsdp : option (list string)) : result GraphModel :=
  let config := set_config_tower graph_tower (gm_config self) in
  local ←
    match gm_graph_tower self with
    | NoTower =>
        if String.eqb graph_tower "MPNN" then
          ghs ← getattr (cfg_graph_hidden_size config);
          Ok (LocalTower (MPNN ghs (ghs * 2) ghs))
        else if String.eqb graph_tower "clip_gcn_arxiv" then
          path ← getattr (cfg_pretrain_graph_model_path config);
          r ← load_model_pretrained CLIP path;
          t ← transfer_param_tograph (fst r) (GNN (snd r));
          Ok (LocalTower t)
        else if String.eqb graph_tower "clip_gt" then
          path ← getattr (cfg_pretrain_graph_model_path config);
          r ← load_model_pretrained CLIP path;
          t ← transfer_param_tograph (fst r) (graph_transformer (snd r));
          Ok (LocalTower t)
        else if String.eqb graph_tower "clip_gt_arxiv" then
          path ← getattr (cfg_pretrain_graph_model_path config);
          r ← load_model_pretrained CLIP path;
          t ← transfer_param_tograph (fst r) (graph_transformer (snd r));
          Ok (LocalTower t)
        else if String.eqb graph_tower "clip_gt_arxiv_pub" then
          path ← getattr (cfg_pretrain_graph_model_path config);
          r ← load_model_pretrained CLIP path;
          t ← transfer_param_tograph (fst r) (graph_transformer (snd r));
          Ok (LocalTower t)
        else Ok (LocalTag graph_tower)
    | OneTower t => Ok (LocalTower t)
    | TowerList t rest => Ok (LocalList t rest)
    end;
  (* graph_tower.requires_grad_(False) *)
  t ← match local with
      | LocalTower t => Ok t
      | LocalTag _ | LocalList _ _ => Err AttributeError
      end;
  attr ←
    match fsdp with
    | Some (_ :: _) =>
        (* self.graph_tower = [graph_tower] *)
        match gm_graph_tower self with
        | OneTower _ => Err TypeError   (* a list for a registered child module *)
        | _ => Ok (TowerList t [])
        end
    | _ => Ok (OneTower t)
    end;
  (* self.graph_tower.W_P.out_features *)
  ghs ← match attr with
        | OneTower t => getattr (W_P_out_features t)
        | _ => Err AttributeError
        end;
  let config := set_config_proj graph_select_layer ghs config in
  let projector :=
    match gm_graph_projector self with
    | Some L => L
    | None => new_Linear ghs (cfg_hidden_size config)
    end in
  projector ←
    match pretrain_graph_mlp_adapter with
    | None => Ok projector
    | Some weights => Linear_load_state_dict projector (by_last_segment weights)
    end;
  Ok {| gm_graph_tower := attr;
        gm_graph_projector := Some projector;
        gm_config := config |}.

(** [GraphLlamaForCausalLM.get_vision_tower]: the attribute is read
    directly. *)
Definition get_vision_tower (self : GraphModel)
    : result (GraphTower (T := T) (G := G)) :=
  match gm_graph_tower self with
  | NoTower => Err AttributeError
  | OneTower t => Ok t
  | TowerList t _ => Ok t
  end.

End GraphModules.

(** ** Predicates used in the statements *)

(** The check of the loop over START positions passes for the [k]-th START,
    at position [p]: a feature set is left for it and the END marker sits
    right after its patch span. *)
Definition region_ok {T : Type} (tc : TowerConfig) (feats : list (list (list T)))
    (ids : list Z) (idx k p : nat) : Prop :=
  exists f, feats !! (idx + k) = Some f
            /\ ids !! (p + length f + 1) = Some (graph_end_token tc).


(** The number of feature sets one sample moves the cursor by: one for a
    sample without PATCH marker, one per START marker in start/end mode, one
    in patch-only mode. *)
Definition consumed (tc : TowerConfig) (ids : list Z) : nat :=
  if Nat.eqb (eq_sum (graph_patch_token tc) ids) 0 then 1
  else if use_graph_start_end tc then eq_sum (graph_start_token tc) ids
  else 1.

(** ** Concrete data for evaluation, over exact rationals *)

Definition q (n : Z) : Qc := Q2Qc (inject_Z n).

Definition ex_row (n : Z) : list Qc := [q n; q (- n)].

(** PATCH is 100, START is 101, END is 102. *)
Definition ex_tc (start_end : bool) : TowerConfig :=
  {| graph_patch_token := 100;
     graph_start_token := 101;
     graph_end_token := 102;
     use_graph_start_end := start_end |}.

Definition ex_embeds (ns : list Z) : list (list Qc) := map ex_row ns.

(** A graph encoder of width [w] on graphs that are numbers of nodes, and a
    model whose projector reads [w] features. *)
Definition ex_tower (w : nat) (start_end : bool) : GraphTower (T := Qc) (G := nat) :=
  {| tower_forward := fun g => replicate g (replicate w (q 1));
     config := ex_tc start_end |}.

Definition ex_model (w : nat) (start_end : bool) : GraphLlamaModel (T := Qc) (G := nat) :=
  {| graph_tower := OneTower (ex_tower w start_end);
     graph_projector :=
       Some (make_graph_projector
               {| graph_hidden_size := w; hidden_size := 2 |}
               [replicate w (q 1); replicate w (q 2)] [q 0; q 0]);
     embed_tokens := ex_row;
     training := false;
     orig_embeds_params := false |}.

(** A language model with a vocabulary of two tokens and width 1. *)
Definition ex_lm : CausalLM (T := Qc) :=
  {| embedding_dim := 1;
     input_embeddings := [[q 1]; [q 3]];
     output_embeddings := [[q 5]; [q 7]];
     input_requires_grad := false;
     output_requires_grad := false;
     model_orig_embeds_params := None;
     vision_config := ex_tc false |}.

Definition ex_fresh (i : nat) : list Qc := [q (10 * Z.of_nat i)].

(** Stand-ins for the external encoders, checkpoints and files. *)
Definition ex_MPNN (i h o : nat) : GraphTower (T := Qc) (G := nat) :=
  ex_tower o false.

Definition ex_encoder (args : gmap string Z) : GraphTower (T := Qc) (G := nat) :=
  ex_tower 128 false.

Definition ex_load (t : GraphTower (T := Qc) (G := nat)) (sd : gmap string Z)
    : result (GraphTower (T := Qc) (G := nat)) := Ok t.

Definition ex_CLIP (args : gmap string Z) : unit := tt.

Definition ex_clip_load (c : unit) (sd : gmap string Z) : result unit := Ok c.

Definition ex_clip_state (c : unit) : gmap string Z := ∅.

Definition ex_W_P (t : GraphTower (T := Qc) (G := nat)) : option nat := Some 128.

Definition ex_init_weight (i o : nat) : list (list Qc) :=
  replicate o (replicate i (q 0)).

Definition ex_init_bias (i o : nat) : list Qc := replicate o (q 0).

Definition ex_fs (path : string) : PretrainDir (V := Z) (P := Z) :=
  {| config_json := Some ∅; pkl_files := [∅] |}.

Definition ex_config : GConfig :=
  {| cfg_graph_tower := None;
     cfg_graph_hidden_size := Some 4;
     cfg_hidden_size := 2;
     cfg_pretrain_graph_model_path := Some "dir";
     cfg_use_graph_proj := None;
     cfg_graph_select_layer := None |}.

Definition ex_graph_model : GraphModel (T := Qc) (G := nat) :=
  {| gm_graph_tower := OneTower (ex_tower 128 false);
     gm_graph_projector := Some (new_Linear ex_init_weight ex_init_bias 3 2);
     gm_config := ex_config |}.

(** * Properties *)

(** ** Positions and counts of a marker *)

Lemma where_from_length tok i ids :
  length (where_from tok i ids) = eq_sum tok ids.
Proof.
  revert i. induction ids as [|t rest IH]; intros i; simpl; [done|].
  destruct (Z.eqb t tok); simpl; by rewrite IH.
Qed.

Lemma where_eq_length tok ids : length (where_eq tok ids) = eq_sum tok ids.
Proof. apply where_from_length. Qed.

Lemma where_from_app tok i xs ys :
  where_from tok i (xs ++ ys)
  = where_from tok i xs ++ where_from tok (i + length xs) ys.
Proof.
  revert i. induction xs as [|t rest IH]; intros i; simpl.
  - by rewrite Nat.add_0_r.
  - rewrite IH. replace (S i + length rest) with (i + S (length rest)) by lia.
    by destruct (Z.eqb t tok).
Qed.

Lemma eq_sum_app tok xs ys :
  eq_sum tok (xs ++ ys) = eq_sum tok xs + eq_sum tok ys.
Proof. induction xs as [|t rest IH]; simpl; [done|]. rewrite IH. lia. Qed.

Lemma where_from_absent tok i xs :
  Forall (fun t => t <> tok) xs -> where_from tok i xs = [].
Proof.
  revert i. induction xs as [|t rest IH]; intros i Hall; simpl; [done|].
  inversion Hall as [|? ? Ht Hrest]; subst.
  destruct (Z.eqb_spec t tok); [done|]. by apply IH.
Qed.

Lemma eq_sum_absent tok xs :
  Forall (fun t => t <> tok) xs -> eq_sum tok xs = 0.
Proof.
  intros Hall. rewrite <- (where_from_length tok 0).
  by rewrite where_from_absent.
Qed.

Lemma where_from_replicate tok i n :
  where_from tok i (replicate n tok) = seq i n.
Proof.
  revert i. induction n as [|n IH]; intros i; simpl; [done|].
  rewrite Z.eqb_refl. by rewrite IH.
Qed.

Lemma eq_sum_replicate tok n : eq_sum tok (replicate n tok) = n.
Proof.
  rewrite <- (where_from_length tok 0), where_from_replicate.
  apply length_seq.
Qed.

(** [where_from] lists exactly the positions that hold the marker. *)
Lemma elem_of_where_from tok i ids p :
  p ∈ where_from tok i ids <-> i <= p /\ ids !! (p - i) = Some tok.
Proof.
  revert i. induction ids as [|t rest IH]; intros i; simpl.
  - split; [by intros ?%elem_of_nil | by intros [_ ?]].
  - assert (Hrest : p ∈ where_from tok (S i) rest
                    <-> S i <= p /\ (t :: rest) !! (p - i) = Some tok).
    { rewrite IH. split; intros [Hle Hl]; (split; [done|]).
      - by replace (p - i) with (S (p - S i)) by lia.
      - by replace (p - i) with (S (p - S i)) in Hl by lia. }
    destruct (Z.eqb_spec t tok) as [->|Hne].
    + rewrite elem_of_cons, Hrest. split.
      * intros [->|[Hle Hl]]; [|split; [lia|done]].
        split; [lia|]. by rewrite Nat.sub_diag.
      * intros [Hle Hl]. destruct (decide (p = i)) as [->|]; [by left|].
        right. split; [lia|done].
    + rewrite Hrest. split.
      * intros [Hle Hl]. split; [lia|done].
      * intros [Hle Hl]. destruct (decide (p = i)) as [->|].
        -- rewrite Nat.sub_diag in Hl. simpl in Hl. congruence.
        -- split; [lia|done].
Qed.

Lemma elem_of_where_eq tok ids p :
  p ∈ where_eq tok ids <-> ids !! p = Some tok.
Proof.
  unfold where_eq. rewrite elem_of_where_from, Nat.sub_0_r.
  split; [by intros [_ ?] | intros ?; split; [lia|done]].
Qed.

(** ... in ascending order. *)
Lemma where_from_lower tok i ids :
  Forall (fun p => i <= p) (where_from tok i ids).
Proof.
  apply Forall_forall. intros p Hp. by apply elem_of_where_from in Hp as [? _].
Qed.

Lemma where_from_sorted tok i ids :
  StronglySorted lt (where_from tok i ids).
Proof.
  revert i. induction ids as [|t rest IH]; intros i; simpl; [constructor|].
  destruct (Z.eqb t tok); [|apply IH].
  constructor; [apply IH|].
  eapply Forall_impl; [apply (where_from_lower tok (S i))|].
  simpl. intros; lia.
Qed.

Lemma where_eq_zero tok ids : eq_sum tok ids = 0 -> where_eq tok ids = [].
Proof.
  intros H0. apply length_zero_iff_nil. by rewrite where_eq_length.
Qed.

(** [any_ne] against an [arange] decides contiguity. *)
Lemma any_ne_seq xs s :
  any_ne xs (seq s (length xs)) = false <-> xs = seq s (length xs).
Proof.
  revert s. induction xs as [|x rest IH]; intros s; simpl; [done|].
  unfold any_ne in *. simpl. rewrite orb_false_iff, negb_false_iff, IH.
  rewrite Nat.eqb_eq. split.
  - intros [-> <-]. done.
  - intros Heq. injection Heq as -> Hrest. done.
Qed.

Lemma any_ne_arange xs s :
  any_ne xs (arange s (s + length xs)) = false <-> xs = seq s (length xs).
Proof.
  unfold arange. replace (s + length xs - s) with (length xs) by lia.
  apply any_ne_seq.
Qed.

(** A marker whose positions are the run [s, s + n) splits the sequence
    into a marker-free prefix, [n] markers and a marker-free suffix. *)
Lemma contiguous_run_decomposition tok ids s n :
  0 < n ->
  where_eq tok ids = seq s n ->
  ids = take s ids ++ replicate n tok ++ drop (s + n) ids
  /\ length (take s ids) = s
  /\ Forall (fun t => t <> tok) (take s ids)
  /\ Forall (fun t => t <> tok) (drop (s + n) ids).
Proof.
  intros Hn Hw.
  assert (Hpos : forall p, ids !! p = Some tok <-> s <= p < s + n).
  { intros p. rewrite <- elem_of_where_eq, Hw, elem_of_seq. lia. }
  assert (Hlen : s + n <= length ids).
  { assert (Hlast : ids !! (s + n - 1) = Some tok) by (apply Hpos; lia).
    apply lookup_lt_Some in Hlast. lia. }
  assert (Htake : length (take s ids) = s) by (rewrite length_take; lia).
  split; [|split; [done|split]].
  - apply list_eq. intros i.
    destruct (decide (i < s)) as [Hi|Hi].
    { rewrite lookup_app_l by lia. by rewrite lookup_take_lt. }
    rewrite lookup_app_r by lia. rewrite Htake.
    destruct (decide (i < s + n)) as [Hi'|Hi'].
    + rewrite lookup_app_l by (rewrite length_replicate; lia).
      rewrite lookup_replicate_2 by lia. apply Hpos. lia.
    + rewrite lookup_app_r by (rewrite length_replicate; lia).
      rewrite length_replicate, lookup_drop. f_equal. lia.
  - apply Forall_lookup. intros i t Hi ->.
    assert (i < s) by (apply lookup_lt_Some in Hi; lia).
    rewrite lookup_take_lt in Hi by done. apply Hpos in Hi. lia.
  - apply Forall_lookup. intros i t Hi ->.
    rewrite lookup_drop in Hi. apply Hpos in Hi. lia.
Qed.

(** ** Indexing *)

Lemma index_Some {A} (l : list A) i a : l !! i = Some a -> index l i = Ok a.
Proof. unfold index. by intros ->. Qed.

Lemma index_None {A} (l : list A) i : l !! i = None -> index l i = Err IndexError.
Proof. unfold index. by intros ->. Qed.

Ltac res_simpl := cbn [mbind result_bind mret result_ret fst snd negb].

(** ** The splicer *)

Section SplicerFacts.

Context {T : Type} `{ST : Scalar T}.

Local Abbreviation tensor := (list (list T)).

(** *** The loop over samples aborts at the first exception *)




(** *** Text-only samples *)

Lemma fold_sadd_zeros `{!ScalarLaws T} (l : list T) :
  Forall (fun x => x = szero) l -> fold_left sadd l szero = szero.
Proof.
  induction 1 as [|x l -> _ IH]; simpl; [done|]. by rewrite sadd_0_r.
Qed.

Lemma tensor_sum_scale_zero `{!ScalarLaws T} (d : tensor) :
  tensor_sum (scale szero d) = szero.
Proof.
  unfold tensor_sum, scale. apply fold_sadd_zeros.
  induction d as [|r d IH]; simpl; [constructor|].
  apply Forall_app. split; [|done].
  induction r as [|x r IHr]; simpl; constructor; [apply smul_0_l | done].
Qed.

Lemma add_scalar_zero `{!ScalarLaws T} (e : tensor) : add_scalar e szero = e.
Proof.
  unfold add_scalar. induction e as [|r e IH]; simpl; [done|].
  rewrite IH. f_equal.
  induction r as [|x r IHr]; simpl; [done|]. by rewrite IHr, sadd_0_r.
Qed.


(** *** Patch-only mode *)

Lemma merge_patch_protect protect s (f e : tensor) :
  merge_patch protect s f e = take s e ++ f ++ drop (s + length f) e.
Proof. by destruct protect. Qed.

Lemma merge_patch_length protect s (f e : tensor) :
  s + length f <= length e ->
  length (merge_patch protect s f e) = length e.
Proof.
  intros Hle. rewrite merge_patch_protect.
  rewrite !length_app, length_take, length_drop. lia.
Qed.

Lemma merge_patch_lookup_before protect s (f e : tensor) i :
  i < s -> s <= length e -> merge_patch protect s f e !! i = e !! i.
Proof.
  intros Hi Hs. rewrite merge_patch_protect.
  rewrite lookup_app_l by (rewrite length_take; lia).
  by rewrite lookup_take_lt.
Qed.

Lemma merge_patch_lookup_span protect s (f e : tensor) j :
  j < length f -> s <= length e ->
  merge_patch protect s f e !! (s + j) = f !! j.
Proof.
  intros Hj Hs. rewrite merge_patch_protect.
  rewrite lookup_app_r by (rewrite length_take; lia).
  rewrite length_take. replace (s + j - s `min` length e) with j by lia.
  by rewrite lookup_app_l.
Qed.

Lemma merge_patch_lookup_after protect s (f e : tensor) i :
  s + length f <= i -> s <= length e ->
  merge_patch protect s f e !! i = e !! i.
Proof.
  intros Hi Hs. rewrite merge_patch_protect.
  rewrite lookup_app_r by (rewrite length_take; lia).
  rewrite length_take.
  rewrite lookup_app_r by lia.
  rewrite lookup_drop. f_equal. lia.
Qed.

(** The sample path of patch-only mode on a contiguous run of [n] PATCH
    markers that starts at position [length pre]. *)
Lemma splice_sample_patch_run tc protect (feats : list tensor) dummy st
    pre post (e f : tensor) :
  use_graph_start_end tc = false ->
  Forall (fun t => t <> graph_patch_token tc) pre ->
  Forall (fun t => t <> graph_patch_token tc) post ->
  0 < length f ->
  feats !! cur_graph_idx st = Some f ->
  splice_sample tc protect feats dummy st
    (pre ++ replicate (length f) (graph_patch_token tc) ++ post, e)
  = Ok {| new_input_embeds :=
            new_input_embeds st ++ [merge_patch protect (length pre) f e];
          cur_graph_idx := S (cur_graph_idx st);
          cur_new_input_embeds := Some (merge_patch protect (length pre) f e) |}.
Proof.
  intros Hmode Hpre Hpost Hn Hf.
  assert (Hsum : eq_sum (graph_patch_token tc)
                   (pre ++ replicate (length f) (graph_patch_token tc) ++ post)
                 = length f).
  { rewrite !eq_sum_app, eq_sum_replicate, !eq_sum_absent by done. lia. }
  assert (Hwhere : where_eq (graph_patch_token tc)
                     (pre ++ replicate (length f) (graph_patch_token tc) ++ post)
                   = seq (length pre) (length f)).
  { unfold where_eq. rewrite !where_from_app, where_from_replicate.
    rewrite !where_from_absent by done. simpl. by rewrite app_nil_r. }
  unfold splice_sample. res_simpl. rewrite Hsum, Hmode.
  destruct (Nat.eqb_spec (length f) 0) as [|_]; [lia|].
  rewrite (index_Some _ _ _ Hf). res_simpl.
  rewrite Nat.eqb_refl. res_simpl. rewrite Hwhere.
  assert (Hhd : seq (length pre) (length f) !! 0 = Some (length pre)).
  { destruct (length f); [lia|done]. }
  rewrite (index_Some _ _ _ Hhd). res_simpl.
  assert (Hany : any_ne (seq (length pre) (length f))
                   (arange (length pre) (length pre + length f)) = false).
  { pose proof (any_ne_arange (seq (length pre) (length f)) (length pre)) as Hiff.
    rewrite length_seq in Hiff. by apply Hiff. }
  by rewrite Hany.
Qed.

(** C2. A valid patch-only sample: the span of length [n] that starts at
    the first PATCH position holds the [n] feature vectors in order, every
    other position is unchanged, and the cursor advances by one. *)
Theorem patch_only_span_replaced tc protect (feats : list tensor) dummy st
    pre post (e f : tensor) :
  use_graph_start_end tc = false ->
  Forall (fun t => t <> graph_patch_token tc) pre ->
  Forall (fun t => t <> graph_patch_token tc) post ->
  0 < length f ->
  feats !! cur_graph_idx st = Some f ->
  length e = length (pre ++ replicate (length f) (graph_patch_token tc) ++ post) ->
  exists out : tensor,
    splice_sample tc protect feats dummy st
      (pre ++ replicate (length f) (graph_patch_token tc) ++ post, e)
    = Ok {| new_input_embeds := new_input_embeds st ++ [out];
            cur_graph_idx := S (cur_graph_idx st);
            cur_new_input_embeds := Some out |}
    /\ length out = length e
    /\ (forall i, i < length pre -> out !! i = e !! i)
    /\ (forall j, j < length f -> out !! (length pre + j) = f !! j)
    /\ (forall i, length pre + length f <= i -> out !! i = e !! i).
Proof.
  intros Hmode Hpre Hpost Hn Hf Hlen.
  rewrite !length_app, length_replicate in Hlen.
  exists (merge_patch protect (length pre) f e).
  split; [by apply splice_sample_patch_run|].
  split; [apply merge_patch_length; lia|].
  split; [intros i Hi; apply merge_patch_lookup_before; lia|].
  split; [intros j Hj; apply merge_patch_lookup_span; lia|].
  intros i Hi; apply merge_patch_lookup_after; lia.
Qed.

(** A batch of one valid patch-only sample with its one feature set goes
    through the cursor check and the stacking. *)
Corollary patch_only_single_sample_batch tc protect dummy pre post (e f : tensor) :
  use_graph_start_end tc = false ->
  Forall (fun t => t <> graph_patch_token tc) pre ->
  Forall (fun t => t <> graph_patch_token tc) post ->
  0 < length f ->
  splice_batch tc protect [f] dummy
    [pre ++ replicate (length f) (graph_patch_token tc) ++ post] [e]
  = Ok [take (length pre) e ++ f ++ drop (length pre + length f) e].
Proof.
  intros Hmode Hpre Hpost Hn. unfold splice_batch.
  cbn [zip zip_with splice_loop].
  rewrite (splice_sample_patch_run tc protect [f] dummy init_state pre post e f)
    by done.
  res_simpl. cbn [cur_graph_idx new_input_embeds init_state length Nat.eqb app].
  unfold torch_stack. cbn [forallb]. rewrite Nat.eqb_refl.
  by rewrite merge_patch_protect.
Qed.


(** C7. After the loop the cursor is compared with the number of feature
    sets supplied; a difference raises the assertion error, before the
    merged sequences are stacked. *)
Theorem cursor_checked_before_stack tc protect (feats : list tensor) dummy
    input_ids inputs_embeds st :
  splice_loop tc protect feats dummy init_state (zip input_ids inputs_embeds)
  = Ok st ->
  (cur_graph_idx st <> length feats ->
   splice_batch tc protect feats dummy input_ids inputs_embeds
   = Err AssertionError)
  /\ (cur_graph_idx st = length feats ->
      splice_batch tc protect feats dummy input_ids inputs_embeds
      = torch_stack (new_input_embeds st)).
Proof.
  intros Hloop. unfold splice_batch. rewrite Hloop. simpl.
  destruct (Nat.eqb_spec (cur_graph_idx st) (length feats)); split; done.
Qed.

End SplicerFacts.

(** ** Start/end mode *)

Section StartEndFacts.

Context {T : Type} `{ST : Scalar T}.

Local Abbreviation tensor := (list (list T)).

Lemma merge_start_end_protect protect p (f e : tensor) :
  merge_start_end protect p f e
  = take (p + 1) e ++ f ++ drop (p + length f + 1) e.
Proof.
  destruct protect; [|done]. unfold merge_start_end, detach, slice.
  replace (p + 1 - p) with 1 by lia.
  replace (p + length f + 2 - (p + length f + 1)) with 1 by lia.
  rewrite app_assoc, take_take_drop. do 2 f_equal.
  replace (p + length f + 2) with (p + length f + 1 + 1) by lia.
  rewrite <- (drop_drop e 1 (p + length f + 1)). apply take_drop.
Qed.

Lemma merge_start_end_length protect p (f e : tensor) :
  p + length f + 1 <= length e ->
  length (merge_start_end protect p f e) = length e.
Proof.
  intros Hle. rewrite merge_start_end_protect.
  rewrite !length_app, length_take, length_drop. lia.
Qed.

Lemma merge_start_end_lookup_before protect p (f e : tensor) i :
  i <= p -> p < length e -> merge_start_end protect p f e !! i = e !! i.
Proof.
  intros Hi Hp. rewrite merge_start_end_protect.
  rewrite lookup_app_l by (rewrite length_take; lia).
  apply lookup_take_lt. lia.
Qed.

Lemma merge_start_end_lookup_span protect p (f e : tensor) j :
  j < length f -> p < length e ->
  merge_start_end protect p f e !! (p + 1 + j) = f !! j.
Proof.
  intros Hj Hp. rewrite merge_start_end_protect.
  rewrite lookup_app_r by (rewrite length_take; lia).
  rewrite length_take.
  replace (p + 1 + j - (p + 1) `min` length e) with j by lia.
  by rewrite lookup_app_l.
Qed.

Lemma merge_start_end_lookup_after protect p (f e : tensor) i :
  p + length f + 1 <= i -> p < length e ->
  merge_start_end protect p f e !! i = e !! i.
Proof.
  intros Hi Hp. rewrite merge_start_end_protect.
  rewrite lookup_app_r by (rewrite length_take; lia).
  rewrite length_take, lookup_app_r by lia.
  rewrite lookup_drop. f_equal. lia.
Qed.

Lemma start_end_loop_app tc protect (feats : list tensor) ids (e : tensor)
    xs ys idx cn :
  start_end_loop tc protect feats ids e (xs ++ ys) idx cn
  = r ← start_end_loop tc protect feats ids e xs idx cn;
    start_end_loop tc protect feats ids e ys (fst r) (snd r).
Proof.
  revert idx cn. induction xs as [|p rest IH]; intros idx cn; [done|].
  cbn [app start_end_loop].
  destruct (index feats idx) as [f|err]; res_simpl; [|done].
  destruct (index ids (p + length f + 1)) as [t|err]; res_simpl; [|done].
  destruct (Z.eqb t (graph_end_token tc)); res_simpl; [|done].
  apply IH.
Qed.

(** While every check passes, the loop only moves the cursor. *)
Lemma start_end_loop_ok tc protect (feats : list tensor) ids (e : tensor)
    xs idx cn :
  (forall j q, xs !! j = Some q -> region_ok tc feats ids idx j q) ->
  exists c, start_end_loop tc protect feats ids e xs idx cn
            = Ok (idx + length xs, c).
Proof.
  revert idx cn. induction xs as [|p rest IH]; intros idx cn Hok.
  - exists cn. simpl. by rewrite Nat.add_0_r.
  - destruct (Hok 0 p eq_refl) as (f & Hf & Hend).
    rewrite Nat.add_0_r in Hf.
    destruct (IH (S idx) (Some (merge_start_end protect p f e))) as (c & Hc).
    { intros j q Hj. destruct (Hok (S j) q Hj) as (fj & Hfj & Hej).
      exists fj. split; [|done]. by replace (S idx + j) with (idx + S j) by lia. }
    exists c. cbn [start_end_loop].
    rewrite (index_Some _ _ _ Hf). res_simpl.
    rewrite (index_Some _ _ _ Hend). res_simpl.
    rewrite Z.eqb_refl. res_simpl. rewrite Hc.
    do 2 f_equal. simpl. lia.
Qed.



(** After a loop in which every check passes, [cur_new_input_embeds] is the
    merged sequence of the last START alone. *)
Lemma start_end_loop_last tc protect (feats : list tensor) ids (e : tensor)
    xs p idx cn f :
  (forall j q, (xs ++ [p]) !! j = Some q -> region_ok tc feats ids idx j q) ->
  feats !! (idx + length xs) = Some f ->
  start_end_loop tc protect feats ids e (xs ++ [p]) idx cn
  = Ok (idx + length (xs ++ [p]), Some (merge_start_end protect p f e)).
Proof.
  intros Hok Hf. rewrite start_end_loop_app.
  destruct (start_end_loop_ok tc protect feats ids e xs idx cn) as (c & Hc).
  { intros j q Hj. apply Hok. by apply lookup_app_l_Some. }
  rewrite Hc. res_simpl. cbn [start_end_loop].
  destruct (Hok (length xs) p) as (f' & Hf' & Hend).
  { by rewrite lookup_app_r, Nat.sub_diag. }
  assert (f' = f) as -> by congruence.
  rewrite (index_Some _ _ _ Hf). res_simpl.
  rewrite (index_Some _ _ _ Hend). res_simpl.
  rewrite Z.eqb_refl. res_simpl.
  rewrite length_app. simpl. do 2 f_equal. lia.
Qed.

(** A valid start/end sample: the cursor advances by the number of START
    markers, and the sequence appended is the one merged for the last
    START; it has the length of the input sequence. *)
Theorem start_end_sample_merged tc protect (feats : list tensor) dummy st ids
    (e : tensor) starts p f :
  use_graph_start_end tc = true ->
  eq_sum (graph_patch_token tc) ids <> 0 ->
  eq_sum (graph_start_token tc) ids = eq_sum (graph_end_token tc) ids ->
  where_eq (graph_start_token tc) ids = starts ++ [p] ->
  (forall j q, (starts ++ [p]) !! j = Some q ->
               region_ok tc feats ids (cur_graph_idx st) j q) ->
  feats !! (cur_graph_idx st + length starts) = Some f ->
  length e = length ids ->
  splice_sample tc protect feats dummy st (ids, e)
  = Ok {| new_input_embeds :=
            new_input_embeds st ++ [merge_start_end protect p f e];
          cur_graph_idx := cur_graph_idx st + length (starts ++ [p]);
          cur_new_input_embeds := Some (merge_start_end protect p f e) |}
  /\ length (merge_start_end protect p f e) = length e.
Proof.
  intros Hmode Hpatch Hcount Hwhere Hok Hf Hlen. split.
  - unfold splice_sample. res_simpl. rewrite Hmode.
    destruct (Nat.eqb_spec (eq_sum (graph_patch_token tc) ids) 0); [done|].
    destruct (Hok 0 (default p (head starts))) as (f0 & Hf0 & _).
    { by destruct starts. }
    rewrite Nat.add_0_r in Hf0. rewrite (index_Some _ _ _ Hf0). res_simpl.
    rewrite Hcount, Nat.eqb_refl. res_simpl.
    rewrite Hwhere, (start_end_loop_last _ _ _ _ _ _ _ _ _ _ Hok Hf).
    by res_simpl.
  - apply merge_start_end_length.
    destruct (Hok (length starts) p) as (f' & Hf' & Hend).
    { by rewrite lookup_app_r, Nat.sub_diag. }
    assert (f' = f) as -> by congruence.
    apply lookup_lt_Some in Hend. lia.
Qed.


(** C9. In start/end mode, a sample with PATCH markers but neither START
    nor END markers runs no iteration of the loop over START positions and
    appends [cur_new_input_embeds] as the previous samples left it: unbound
    (an [UnboundLocalError]) or the merged sequence of an earlier sample;
    the cursor does not move. *)
Theorem patch_without_start_appends_stale tc protect (feats : list tensor)
    dummy st ids (e f : tensor) :
  use_graph_start_end tc = true ->
  eq_sum (graph_patch_token tc) ids <> 0 ->
  eq_sum (graph_start_token tc) ids = 0 ->
  eq_sum (graph_end_token tc) ids = 0 ->
  feats !! cur_graph_idx st = Some f ->
  where_eq (graph_start_token tc) ids = []
  /\ splice_sample tc protect feats dummy st (ids, e)
     = match cur_new_input_embeds st with
       | None => Err (UnboundLocalError "cur_new_input_embeds")
       | Some prev =>
           Ok {| new_input_embeds := new_input_embeds st ++ [prev];
                 cur_graph_idx := cur_graph_idx st;
                 cur_new_input_embeds := Some prev |}
       end.
Proof.
  intros Hmode Hpatch Hstart Hend Hf.
  pose proof (where_eq_zero _ _ Hstart) as Hw. split; [done|].
  unfold splice_sample. res_simpl. rewrite Hmode.
  destruct (Nat.eqb_spec (eq_sum (graph_patch_token tc) ids) 0); [done|].
  rewrite (index_Some _ _ _ Hf). res_simpl.
  rewrite Hstart, Hend, Hw. cbn [Nat.eqb negb start_end_loop]. res_simpl.
  by destruct (cur_new_input_embeds st).
Qed.

End StartEndFacts.

(** ** The projector and [forward] *)

Section ForwardFacts.

Context {T : Type} `{ST : Scalar T} {G : Type}.

Local Abbreviation tensor := (list (list T)).

Lemma forallb_replicate {A} (p : A -> bool) n x :
  forallb p (replicate (S n) x) = p x.
Proof.
  induction n as [|n IH]; simpl in *; [apply andb_true_r|].
  rewrite IH. by destruct (p x).
Qed.

(** The placeholder [torch.zeros(256, 128)] passes the projector exactly
    when the projector reads 128 features. *)
Lemma dummy_projection (P : Linear) :
  Linear_forward P (torch_zeros 256 128)
  = if Nat.eqb 128 (in_features P)
    then Ok (map (linear_row P) (torch_zeros 256 128))
    else Err (RuntimeError msg_linear_shape).
Proof.
  unfold Linear_forward, torch_zeros.
  change 256 with (S 255) at 1. rewrite forallb_replicate.
  by rewrite length_replicate.
Qed.

Lemma dummy_projection_width (config : ModelConfig) (w : tensor) (b : list T) :
  graph_hidden_size config <> 128 ->
  Linear_forward (make_graph_projector config w b) (torch_zeros 256 128)
  = Err (RuntimeError msg_linear_shape).
Proof.
  intros Hne. rewrite dummy_projection.
  unfold make_graph_projector. cbn [in_features].
  by destruct (Nat.eqb_spec 128 (graph_hidden_size config)).
Qed.

(** On the splicing path [forward] is [splice_batch] on the projected
    features: an exception of the splicer is the outcome of the call. *)
Lemma forward_splicing_path (self : GraphLlamaModel (G := G)) tw P
    (input_ids : list (list Z)) (inputs_embeds : list tensor) gl
    l1 l2 l3 (feats0 feats : list tensor) (dummy : tensor) :
  get_graph_tower self = Some tw ->
  negb (Nat.eqb (shape1 input_ids) 1) || training self = true ->
  graph_projector self = Some P ->
  encode_graphs tw gl = (l1, Ok feats0) ->
  mapM (call_projector P) feats0 = (l2, Ok feats) ->
  call_projector P (torch_zeros 256 128) = (l3, Ok dummy) ->
  forward self (Some input_ids) (Some inputs_embeds) (GraphList gl)
  = (l1 ++ l2 ++ l3,
     splice_batch (config tw) (orig_embeds_params self) feats dummy
       input_ids inputs_embeds).
Proof.
  intros Htw Hguard HP Henc Hproj Hdummy. unfold forward.
  rewrite Htw, Hguard, HP, Henc.
  cbn [mbind M_bind mret M_ret fst snd app]. rewrite Hproj.
  cbn [mbind M_bind mret M_ret fst snd app]. rewrite Hdummy.
  cbn [mbind M_bind mret M_ret fst snd app lift].
  by rewrite !app_nil_r.
Qed.

(** C10. A batch of sequence length 1 outside training mode: the splicing
    path is skipped whatever [graph_data] is; neither the graph encoder nor
    the projector is called, nothing is raised, and the decoder backbone
    receives the token embeddings as they are. *)
Theorem single_token_inference_skips_splicing (self : GraphLlamaModel (G := G))
    (input_ids : list (list Z)) (inputs_embeds : option (list tensor))
    (graph_data : graph_arg) :
  shape1 input_ids = 1 ->
  training self = false ->
  forward self (Some input_ids) inputs_embeds graph_data
  = ([], Ok (match inputs_embeds with
             | Some e => e
             | None => map (map (embed_tokens self)) input_ids
             end)).
Proof.
  intros Hshape Htrain. unfold forward. rewrite Hshape, Htrain.
  by destruct inputs_embeds as [e|], (get_graph_tower self).
Qed.

End ForwardFacts.

(** ** The token registrar *)

Lemma add_tokens_length tok news :
  length (fst (add_tokens tok news)) = length tok + snd (add_tokens tok news).
Proof.
  revert tok. induction news as [|t rest IH]; intros tok; simpl; [lia|].
  destruct (has_token tok t); [apply IH|]. simpl.
  rewrite IH, length_app. simpl. lia.
Qed.

Section RegistrarFacts.

Context {T : Type} `{ST : Scalar T}.

Local Abbreviation tensor := (list (list T)).

Lemma resize_length (fresh : nat -> list T) n (table : tensor) :
  length (resize fresh n table) = n.
Proof.
  unfold resize. rewrite length_app, length_take, length_map, length_seq. lia.
Qed.

Lemma resize_grow (fresh : nat -> list T) n (table : tensor) :
  length table <= n ->
  resize fresh n table
  = table ++ map fresh (seq (length table) (n - length table)).
Proof. intros Hle. unfold resize. by rewrite take_ge. Qed.

Lemma assign_last_app k (row : list T) (t1 t2 : tensor) :
  length t2 = k -> assign_last k row (t1 ++ t2) = t1 ++ replicate k row.
Proof.
  intros Hk. unfold assign_last. rewrite length_app, Hk.
  replace (length t1 + k - k) with (length t1) by lia.
  rewrite take_app_length. f_equal. f_equal. lia.
Qed.

(** Each entry of [mean_dim0] is the sum of a column divided by the number
    of rows. *)
Lemma mean_dim0_lookup d (rows : tensor) j :
  j < d ->
  mean_dim0 d rows !! j
  = Some (sdiv (fold_left sadd (column j rows) szero) (of_nat (length rows))).
Proof.
  intros Hj. unfold mean_dim0.
  rewrite list_lookup_fmap, lookup_seq_lt by done. done.
Qed.

(** After the two resizes, the mean initialisation of the last [k] rows. *)
Lemma mean_init_resized (fresh : nat -> list T) d n k (t1 : tensor) :
  length t1 = n ->
  assign_last k
    (mean_dim0 d (take (length (resize fresh (n + k) t1) - k)
                       (resize fresh (n + k) t1)))
    (resize fresh (n + k) t1)
  = t1 ++ replicate k (mean_dim0 d t1).
Proof.
  intros Hn. rewrite resize_length.
  rewrite resize_grow by lia. rewrite Hn.
  replace (n + k - k) with n by lia.
  rewrite <- Hn at 1. rewrite take_app_length.
  apply assign_last_app. rewrite length_map, length_seq. lia.
Qed.

(** How the steps of the registrar act on the two tables. *)
Lemma input_with_vision_config vc (self : @CausalLM T) :
  input_embeddings (with_vision_config vc self) = input_embeddings self.
Proof. done. Qed.

Lemma output_with_vision_config vc (self : @CausalLM T) :
  output_embeddings (with_vision_config vc self) = output_embeddings self.
Proof. done. Qed.

Lemma dim_with_vision_config vc (self : @CausalLM T) :
  embedding_dim (with_vision_config vc self) = embedding_dim self.
Proof. done. Qed.

Lemma input_tune_adapter b (self : @CausalLM T) :
  input_embeddings (tune_adapter b self) = input_embeddings self.
Proof. by destruct b. Qed.

Lemma output_tune_adapter b (self : @CausalLM T) :
  output_embeddings (tune_adapter b self) = output_embeddings self.
Proof. by destruct b. Qed.

Lemma input_resize fi fo n (self : @CausalLM T) :
  input_embeddings (resize_token_embeddings fi fo n self)
  = resize fi n (input_embeddings self).
Proof. done. Qed.

Lemma output_resize fi fo n (self : @CausalLM T) :
  output_embeddings (resize_token_embeddings fi fo n self)
  = resize fo n (output_embeddings self).
Proof. done. Qed.

Lemma dim_resize fi fo n (self : @CausalLM T) :
  embedding_dim (resize_token_embeddings fi fo n self) = embedding_dim self.
Proof. done. Qed.

Lemma input_mean_init k (self : @CausalLM T) :
  input_embeddings (mean_init k self)
  = if Nat.ltb 0 k
    then assign_last k
           (mean_dim0 (embedding_dim self)
              (take (length (input_embeddings self) - k) (input_embeddings self)))
           (input_embeddings self)
    else input_embeddings self.
Proof. unfold mean_init. by destruct (Nat.ltb 0 k). Qed.

Lemma output_mean_init k (self : @CausalLM T) :
  output_embeddings (mean_init k self)
  = if Nat.ltb 0 k
    then assign_last k
           (mean_dim0 (embedding_dim self)
              (take (length (output_embeddings self) - k) (output_embeddings self)))
           (output_embeddings self)
    else output_embeddings self.
Proof. unfold mean_init. by destruct (Nat.ltb 0 k). Qed.

Create Rewrite HintDb registrar.
#[local] Hint Rewrite @input_with_vision_config @output_with_vision_config
  @dim_with_vision_config @input_tune_adapter @output_tune_adapter
  @input_resize @output_resize @dim_resize @input_mean_init @output_mean_init
  : registrar.

(** The second resize followed by the mean initialisation, on one table. *)
Lemma resize_then_mean (fresh : nat -> list T) d n k (t1 : tensor) :
  length t1 = n ->
  (if Nat.ltb 0 k
   then assign_last k
          (mean_dim0 d (take (length (resize fresh (n + k) t1) - k)
                             (resize fresh (n + k) t1)))
          (resize fresh (n + k) t1)
   else resize fresh (n + k) t1)
  = t1 ++ replicate k (mean_dim0 d t1).
Proof.
  intros Hn. destruct (Nat.ltb_spec 0 k) as [Hk|Hk].
  - by apply mean_init_resized.
  - assert (k = 0) as -> by lia.
    rewrite resize_grow by lia. rewrite Hn, Nat.add_0_r, Nat.sub_diag. done.
Qed.


End RegistrarFacts.

(** * Evaluation on concrete inputs *)

#[export] Instance Qc_ScalarLaws : ScalarLaws Qc.
Proof. split; [exact Qcmult_0_l | exact Qcplus_0_r]. Qed.

(** Over the rationals the mean times the number of rows is the sum. *)
Lemma mean_dim0_Qc d (rows : list (list Qc)) j :
  j < d -> rows <> [] ->
  exists m, mean_dim0 d rows !! j = Some m
            /\ Qcmult m (of_nat (length rows))
               = fold_left sadd (column j rows) szero.
Proof.
  intros Hj Hrows. eexists. split; [by apply mean_dim0_lookup|].
  cbn [sdiv of_nat Qc_Scalar]. unfold Qcdiv.
  rewrite <- Qcmult_assoc, (Qcmult_comm (/ _)), Qcmult_inv_r, Qcmult_1_r; [done|].
  intros Heq. apply Q2Qc_eq_iff in Heq.
  destruct rows as [|r rows]; [done|].
  unfold Qeq in Heq. cbn [Qnum Qden inject_Z length] in Heq. lia.
Qed.

(** ** Start/end mode with two graph regions *)

(** C1 on the code. A sample with two well-bracketed regions and two
    feature sets: the merged sequence has the length of the input and the
    cursor consumes both sets in order, but each START rebuilds the merged
    sequence from the input embeddings, so only the last region holds its
    feature vectors; the span of the first region still holds the embedding
    of its PATCH token. *)
Theorem two_regions_first_span_not_filled :
  exists out st,
    splice_sample (ex_tc true) false [[ex_row 71]; [ex_row 72]] [] init_state
      ([101; 100; 102; 101; 100; 102]%Z, ex_embeds [10; 11; 12; 13; 14; 15]%Z)
    = Ok st
    /\ new_input_embeds st = [out]
    /\ cur_graph_idx st = 2
    /\ length out = 6
    /\ out !! 4 = Some (ex_row 72)
    /\ out !! 1 = Some (ex_row 11)
    /\ out !! 1 <> Some (ex_row 71).
Proof.
  eexists _, _. split; [reflexivity|].
  cbn [new_input_embeds cur_graph_idx].
  repeat split; try reflexivity.
  intros Heq. vm_compute in Heq. discriminate.
Qed.

(** The same sample through the whole batch path, under [protect] as well. *)
Lemma two_regions_batch protect :
  splice_batch (ex_tc true) protect [[ex_row 71]; [ex_row 72]] []
    [[101; 100; 102; 101; 100; 102]%Z] [ex_embeds [10; 11; 12; 13; 14; 15]%Z]
  = Ok [ex_embeds [10; 11; 12; 13; 72; 15]%Z].
Proof. by destruct protect. Qed.

(** C1, the part the code keeps: with one region the span after START holds
    the feature vectors and the length is that of the input. *)
Lemma one_region_batch protect :
  splice_batch (ex_tc true) protect [[ex_row 71; ex_row 72]] []
    [[5; 101; 100; 100; 102; 6]%Z] [ex_embeds [10; 11; 12; 13; 14; 15]%Z]
  = Ok [ex_embeds [10; 11; 71; 72; 14; 15]%Z].
Proof. by destruct protect. Qed.

(** ** Witnesses and counterexamples *)

Lemma patch_only_span_replaced_witness :
  exists out : list (list Qc),
    splice_sample (ex_tc false) false [[ex_row 71; ex_row 72]] [] init_state
      ([1%Z] ++ replicate 2 100%Z ++ [2; 3; 4]%Z,
       ex_embeds [10; 11; 12; 13; 14; 15]%Z)
    = Ok {| new_input_embeds := [] ++ [out];
            cur_graph_idx := 1;
            cur_new_input_embeds := Some out |}
    /\ length out = 6
    /\ (forall i, i < 1 -> out !! i = ex_embeds [10; 11; 12; 13; 14; 15]%Z !! i)
    /\ (forall j, j < 2 -> out !! (1 + j) = [ex_row 71; ex_row 72] !! j)
    /\ (forall i, 1 + 2 <= i -> out !! i = ex_embeds [10; 11; 12; 13; 14; 15]%Z !! i).
Proof.
  apply (patch_only_span_replaced (ex_tc false) false
           [[ex_row 71; ex_row 72]] [] init_state [1%Z] [2; 3; 4]%Z
           (ex_embeds [10; 11; 12; 13; 14; 15]%Z) [ex_row 71; ex_row 72]).
  - reflexivity.
  - repeat constructor; discriminate.
  - repeat constructor; discriminate.
  - simpl; lia.
  - reflexivity.
  - reflexivity.
Defined.







(** The batch of the end-to-end scenario: a sample with PATCH markers, a
    text-only sample, one feature set.  The text-only sample moves the
    cursor too, so the cursor ends at 2 and the assertion fails. *)
Lemma cursor_checked_before_stack_witness :
  splice_batch (ex_tc false) false [[ex_row 71; ex_row 72]] []
    [[1; 100; 100; 2]%Z; [1; 2; 3; 4]%Z]
    [ex_embeds [10; 11; 12; 13]%Z; ex_embeds [20; 21; 22; 23]%Z]
  = Err AssertionError.
Proof.
  refine (proj1 (cursor_checked_before_stack (ex_tc false) false
                   [[ex_row 71; ex_row 72]] []
                   [[1; 100; 100; 2]%Z; [1; 2; 3; 4]%Z]
                   [ex_embeds [10; 11; 12; 13]%Z; ex_embeds [20; 21; 22; 23]%Z]
                   _ eq_refl) _).
  simpl. lia.
Defined.

(** C8 on the code. A model configured with [graph_hidden_size = 64]: the
    projector accepts the node features of width 64, and the placeholder
    [torch.zeros(256, 128)] of the fixed width 128 is refused, so the call
    fails with a shape error before any sample is spliced. *)
Theorem dummy_projection_fails_for_width_64 :
  (exists P y, graph_projector (ex_model 64 false) = Some P
               /\ in_features P = 64
               /\ Linear_forward P (tower_forward (ex_tower 64 false) 2) = Ok y)
  /\ snd (forward (ex_model 64 false) (Some [[1; 100; 100; 2]%Z]) None
            (GraphList (DataList [2])))
     = Err (RuntimeError msg_linear_shape).
Proof.
  split.
  - eexists _, _. split; [reflexivity|]. split; reflexivity.
  - vm_compute. reflexivity.
Qed.

(** With the width 128 the same call goes through. *)
Lemma dummy_projection_passes_for_width_128 :
  exists out,
    snd (forward (ex_model 128 false) (Some [[1; 100; 100; 2]%Z]) None
           (GraphList (DataList [2])))
    = Ok [out]
    /\ length out = 4.
Proof. eexists. split; vm_compute; reflexivity. Qed.

Lemma patch_without_start_appends_stale_witness :
  where_eq (graph_start_token (ex_tc true)) [100; 1; 2]%Z = []
  /\ splice_sample (ex_tc true) false [[ex_row 71]] [] init_state
       ([100; 1; 2]%Z, ex_embeds [10; 11; 12]%Z)
     = match cur_new_input_embeds (init_state (T := Qc)) with
       | None => Err (UnboundLocalError "cur_new_input_embeds")
       | Some prev =>
           Ok {| new_input_embeds := new_input_embeds init_state ++ [prev];
                 cur_graph_idx := cur_graph_idx (init_state (T := Qc));
                 cur_new_input_embeds := Some prev |}
       end.
Proof.
  apply (patch_without_start_appends_stale (ex_tc true) false [[ex_row 71]] []
           init_state [100; 1; 2]%Z (ex_embeds [10; 11; 12]%Z) [ex_row 71]);
    [reflexivity | simpl; lia | reflexivity | reflexivity | reflexivity].
Defined.

(** The two outcomes on whole batches: the first sample of a batch raises
    the unbound-variable error; after a spliced sample, the stale merged
    sequence of that sample is output for the marker-less one. *)
Lemma patch_without_start_first_sample :
  splice_batch (ex_tc true) false [[ex_row 71]] []
    [[100; 1; 2; 3]%Z] [ex_embeds [10; 11; 12; 13]%Z]
  = Err (UnboundLocalError "cur_new_input_embeds").
Proof. reflexivity. Qed.

Lemma patch_without_start_after_spliced_sample :
  splice_batch (ex_tc true) false [[ex_row 71]; [ex_row 72]] []
    [[5; 101; 100; 102]%Z; [100; 1; 2; 3]%Z; [101; 100; 102; 6]%Z]
    [ex_embeds [10; 11; 12; 13]%Z; ex_embeds [20; 21; 22; 23]%Z;
     ex_embeds [30; 31; 32; 33]%Z]
  = Ok [ex_embeds [10; 11; 71; 13]%Z; ex_embeds [10; 11; 71; 13]%Z;
        ex_embeds [30; 72; 32; 33]%Z].
Proof. reflexivity. Qed.

Lemma single_token_inference_skips_splicing_witness :
  forward (ex_model 64 true) (Some [[100%Z]]) None (GraphList (DataList [2]))
  = ([], Ok [[ex_row 100]]).
Proof.
  apply (single_token_inference_skips_splicing (ex_model 64 true)
           [[100%Z]] None (GraphList (DataList [2])));
    reflexivity.
Defined.

(** * Further properties of the splicer *)

Section SplicerInvariants.

Context {T : Type} `{ST : Scalar T}.

Local Abbreviation tensor := (list (list T)).

Lemma add_scalar_length (e : tensor) x : length (add_scalar e x) = length e.
Proof. unfold add_scalar. apply length_map. Qed.

(** *** The cursor *)

Lemma start_end_loop_cursor tc protect (feats : list tensor) ids (e : tensor)
    xs idx cn i c :
  start_end_loop tc protect feats ids e xs idx cn = Ok (i, c) ->
  i = idx + length xs.
Proof.
  revert idx cn. induction xs as [|p rest IH]; intros idx cn Hloop.
  - simpl in Hloop. injection Hloop as <- _. simpl. lia.
  - cbn [start_end_loop] in Hloop.
    destruct (index feats idx) as [f|]; res_simpl; [|done].
    revert Hloop. res_simpl.
    destruct (index ids (p + length f + 1)) as [t|]; res_simpl; [|done].
    destruct (Z.eqb t (graph_end_token tc)); res_simpl; [|done].
    intros Hloop. apply IH in Hloop. simpl. lia.
Qed.

(** One sample appends one sequence and moves the cursor by [consumed]. *)
Lemma splice_sample_step tc protect (feats : list tensor) dummy st ids
    (e : tensor) st' :
  splice_sample tc protect feats dummy st (ids, e) = Ok st' ->
  cur_graph_idx st' = cur_graph_idx st + consumed tc ids
  /\ exists out, new_input_embeds st' = new_input_embeds st ++ [out].
Proof.
  unfold splice_sample, consumed. res_simpl.
  destruct (Nat.eqb (eq_sum (graph_patch_token tc) ids) 0).
  { intros [= <-]. simpl. split; [lia|eauto]. }
  destruct (use_graph_start_end tc).
  - destruct (index feats (cur_graph_idx st)) as [f0|]; res_simpl; [|done].
    destruct (negb _); [done|].
    destruct (start_end_loop _ _ _ _ _ _ _ _) as [[i c]|] eqn:Hloop;
      res_simpl; [|done].
    destruct c as [c|]; [|done]. intros [= <-]. simpl.
    apply start_end_loop_cursor in Hloop. rewrite where_eq_length in Hloop.
    split; [done|eauto].
  - destruct (index feats (cur_graph_idx st)) as [f|]; res_simpl; [|done].
    destruct (negb _); [done|].
    destruct (index _ 0) as [s|]; res_simpl; [|done].
    destruct (any_ne _ _); [done|]. intros [= <-]. simpl. split; [lia|eauto].
Qed.

Lemma splice_loop_step tc protect (feats : list tensor) dummy st samples st' :
  splice_loop tc protect feats dummy st samples = Ok st' ->
  cur_graph_idx st'
  = cur_graph_idx st + sum_list (map (fun s => consumed tc (fst s)) samples)
  /\ length (new_input_embeds st')
     = length (new_input_embeds st) + length samples.
Proof.
  revert st. induction samples as [|[ids e] rest IH]; intros st Hloop.
  - injection Hloop as <-. simpl. lia.
  - cbn [splice_loop] in Hloop.
    destruct (splice_sample tc protect feats dummy st (ids, e)) as [st1|] eqn:Hs;
      [|done].
    revert Hloop. res_simpl. intros Hloop.
    apply splice_sample_step in Hs as (Hc & out & Hn).
    apply IH in Hloop as (Hc' & Hn').
    rewrite Hc', Hn', Hc, Hn, length_app. simpl. lia.
Qed.

(** *** Shapes *)

Lemma start_end_loop_shape tc protect (feats : list tensor) ids (e : tensor)
    xs idx cn i c :
  length e = length ids ->
  (forall c0, cn = Some c0 -> length c0 = length e) ->
  start_end_loop tc protect feats ids e xs idx cn = Ok (i, c) ->
  forall c1, c = Some c1 -> length c1 = length e.
Proof.
  intros Hlen. revert idx cn. induction xs as [|p rest IH]; intros idx cn Hcn Hloop.
  - simpl in Hloop. injection Hloop as _ <-. done.
  - cbn [start_end_loop] in Hloop.
    destruct (index feats idx) as [f|]; res_simpl; [|done].
    revert Hloop. res_simpl. unfold index at 1.
    destruct (ids !! (p + length f + 1)) as [t|] eqn:Ht; res_simpl; [|done].
    destruct (Z.eqb t (graph_end_token tc)); res_simpl; [|done].
    apply IH. intros c0 [= <-]. apply merge_start_end_length.
    apply lookup_lt_Some in Ht. lia.
Qed.

(** A successful contiguity check bounds the patch run by the sequence. *)
Lemma patch_run_in_range tok ids s n :
  eq_sum tok ids = n -> n <> 0 ->
  where_eq tok ids !! 0 = Some s ->
  any_ne (where_eq tok ids) (arange s (s + n)) = false ->
  where_eq tok ids = seq s n /\ s + n <= length ids.
Proof.
  intros Hsum Hn Hhd Hany.
  pose proof (where_eq_length tok ids) as Hlen. rewrite Hsum in Hlen.
  rewrite <- Hlen in Hany. apply any_ne_arange in Hany. rewrite Hlen in Hany.
  split; [done|].
  destruct (contiguous_run_decomposition tok ids s n) as (Hids & Htake & _);
    [lia|done|].
  apply (f_equal length) in Hids.
  rewrite !length_app, Htake, length_replicate in Hids. lia.
Qed.

Lemma splice_sample_shape tc protect (feats : list tensor) dummy st ids
    (e : tensor) st' L :
  length ids = L -> length e = L ->
  Forall (fun t => length t = L) (new_input_embeds st) ->
  (forall c, cur_new_input_embeds st = Some c -> length c = L) ->
  splice_sample tc protect feats dummy st (ids, e) = Ok st' ->
  Forall (fun t => length t = L) (new_input_embeds st')
  /\ (forall c, cur_new_input_embeds st' = Some c -> length c = L).
Proof.
  intros Hids He Hnew Hcur. unfold splice_sample. res_simpl.
  destruct (Nat.eqb_spec (eq_sum (graph_patch_token tc) ids) 0) as [|Hpatch].
  { intros [= <-]. simpl. split; [|done].
    apply Forall_app. split; [done|]. constructor; [|done].
    by rewrite add_scalar_length. }
  destruct (use_graph_start_end tc).
  - destruct (index feats (cur_graph_idx st)) as [f0|]; res_simpl; [|done].
    destruct (negb _); [done|].
    destruct (start_end_loop _ _ _ _ _ _ _ _) as [[i c]|] eqn:Hloop;
      res_simpl; [|done].
    destruct c as [c|]; [|done]. intros [= <-]. simpl.
    assert (Hc : length c = L).
    { rewrite <- He.
      eapply start_end_loop_shape; [| |exact Hloop|reflexivity].
      - lia.
      - intros c0 Hc0. rewrite He. by apply Hcur. }
    split; [|by intros c0 [= <-]].
    apply Forall_app. split; [done|]. by constructor.
  - destruct (index feats (cur_graph_idx st)) as [f|]; res_simpl; [|done].
    destruct (Nat.eqb_spec (eq_sum (graph_patch_token tc) ids) (length f))
      as [Hcount|]; res_simpl; [|done].
    unfold index.
    destruct (where_eq (graph_patch_token tc) ids !! 0) as [s|] eqn:Hhd;
      res_simpl; [|done].
    destruct (any_ne _ _) eqn:Hany; [done|]. intros [= <-]. simpl.
    destruct (patch_run_in_range _ _ _ _ Hcount ltac:(lia) Hhd Hany) as [_ Hle].
    assert (Hm : length (merge_patch protect s f e) = L).
    { rewrite merge_patch_length; lia. }
    split; [|by intros c0 [= <-]].
    apply Forall_app. split; [done|]. by constructor.
Qed.

Lemma splice_loop_shape tc protect (feats : list tensor) dummy st samples st' L :
  Forall (fun s => length (fst s) = L /\ length (snd s) = L) samples ->
  Forall (fun t => length t = L) (new_input_embeds st) ->
  (forall c, cur_new_input_embeds st = Some c -> length c = L) ->
  splice_loop tc protect feats dummy st samples = Ok st' ->
  Forall (fun t => length t = L) (new_input_embeds st').
Proof.
  intros Hwf. revert st. induction Hwf as [|[ids e] rest [Hids He] _ IH];
    intros st Hnew Hcur Hloop.
  - by injection Hloop as <-.
  - cbn [splice_loop] in Hloop.
    destruct (splice_sample tc protect feats dummy st (ids, e)) as [st1|] eqn:Hs;
      [|done].
    revert Hloop. res_simpl.
    destruct (splice_sample_shape _ _ _ _ _ _ _ _ L Hids He Hnew Hcur Hs).
    by apply IH.
Qed.

(** The samples of a batch given as two tensors of shapes [[B, L]] and
    [[B, L, d]]. *)
Lemma zip_well_formed (input_ids : list (list Z)) (inputs_embeds : list tensor) L :
  Forall (fun r => length r = L) input_ids ->
  Forall (fun e => length e = L) inputs_embeds ->
  Forall (fun s => length (fst s) = L /\ length (snd s) = L)
         (zip input_ids inputs_embeds).
Proof.
  intros Hids. revert inputs_embeds.
  induction Hids as [|r ids Hr _ IH]; intros [|e es] Hes; simpl; try constructor.
  - inversion Hes; subst. done.
  - inversion Hes; subst. by apply IH.
Qed.

Lemma torch_stack_uniform (ts : list tensor) L :
  ts <> [] -> Forall (fun t => length t = L) ts -> torch_stack ts = Ok ts.
Proof.
  intros Hne Hall. unfold torch_stack. destruct ts as [|t0 ts']; [done|].
  assert (Hb : forallb (fun t => Nat.eqb (length t) (length t0)) (t0 :: ts') = true).
  { apply forallb_forall. intros t Hin. apply Nat.eqb_eq.
    rewrite Forall_forall in Hall.
    rewrite (Hall t), (Hall t0); [done| |]; apply list_elem_of_In; [by left|done]. }
  by rewrite Hb.
Qed.

End SplicerInvariants.

Section BatchFacts.

Context {T : Type} `{ST : Scalar T}.

Local Abbreviation tensor := (list (list T)).

Lemma map_fst_zip {A B C} (g : A -> C) (xs : list A) (ys : list B) :
  length ys = length xs ->
  map (fun s => g (fst s)) (zip xs ys) = map g xs.
Proof.
  revert ys. induction xs as [|x xs IH]; intros [|y ys] Hlen; simpl in *;
    try done. f_equal. apply IH. lia.
Qed.

Lemma length_zip_same {A B} (xs : list A) (ys : list B) :
  length ys = length xs -> length (zip xs ys) = length xs.
Proof.
  revert ys. induction xs as [|x xs IH]; intros [|y ys] Hlen; simpl in *;
    try done. f_equal. apply IH. lia.
Qed.

(** What [splice_batch] returns is what the loop collected. *)
Lemma splice_batch_Ok tc protect (feats : list tensor) dummy
    input_ids inputs_embeds out :
  splice_batch tc protect feats dummy input_ids inputs_embeds = Ok out ->
  exists st,
    splice_loop tc protect feats dummy init_state (zip input_ids inputs_embeds)
    = Ok st
    /\ cur_graph_idx st = length feats
    /\ out = new_input_embeds st.
Proof.
  unfold splice_batch.
  destruct (splice_loop _ _ _ _ _ _) as [st|]; res_simpl; [|done].
  destruct (Nat.eqb_spec (cur_graph_idx st) (length feats)); res_simpl; [|done].
  unfold torch_stack. destruct (new_input_embeds st) as [|t0 ts] eqn:Hnew; [done|].
  destruct (forallb _ _); [|done]. intros [= <-]. eauto.
Qed.

(** A batch goes through only when the feature sets supplied are as many as
    its samples consume: one for every sample without PATCH marker, one per
    START marker in start/end mode, one per sample in patch-only mode. *)
Theorem splice_batch_cursor_accounting tc protect (feats : list tensor) dummy
    input_ids inputs_embeds out :
  length inputs_embeds = length input_ids ->
  splice_batch tc protect feats dummy input_ids inputs_embeds = Ok out ->
  length feats = sum_list (map (consumed tc) input_ids).
Proof.
  intros Hlen Hb. apply splice_batch_Ok in Hb as (st & Hloop & Hcur & _).
  apply splice_loop_step in Hloop as [Hc _].
  rewrite <- Hcur, Hc. simpl. by rewrite map_fst_zip.
Qed.

(** The merged batch has the shape of the input batch: one sequence per
    sample, each of the input sequence length. *)
Theorem splice_batch_shape tc protect (feats : list tensor) dummy
    input_ids inputs_embeds out L :
  length inputs_embeds = length input_ids ->
  Forall (fun r => length r = L) input_ids ->
  Forall (fun e => length e = L) inputs_embeds ->
  splice_batch tc protect feats dummy input_ids inputs_embeds = Ok out ->
  length out = length input_ids /\ Forall (fun t => length t = L) out.
Proof.
  intros Hlen Hids Hes Hb. apply splice_batch_Ok in Hb as (st & Hloop & _ & ->).
  split.
  - apply splice_loop_step in Hloop as [_ Hn]. rewrite Hn. simpl.
    by apply length_zip_same.
  - eapply splice_loop_shape; [by apply zip_well_formed| | |exact Hloop]; done.
Qed.

(** On a non-empty batch of sequences of one length, [torch.stack] cannot
    fail: once the loop is through, the cursor assertion is the only
    exception left. *)
Theorem stack_never_fails tc protect (feats : list tensor) dummy
    input_ids inputs_embeds st L :
  input_ids <> [] ->
  length inputs_embeds = length input_ids ->
  Forall (fun r => length r = L) input_ids ->
  Forall (fun e => length e = L) inputs_embeds ->
  splice_loop tc protect feats dummy init_state (zip input_ids inputs_embeds)
  = Ok st ->
  splice_batch tc protect feats dummy input_ids inputs_embeds
  = if Nat.eqb (cur_graph_idx st) (length feats)
    then Ok (new_input_embeds st)
    else Err AssertionError.
Proof.
  intros Hne Hlen Hids Hes Hloop. unfold splice_batch. rewrite Hloop. res_simpl.
  destruct (Nat.eqb (cur_graph_idx st) (length feats)); [|done]. res_simpl.
  apply (torch_stack_uniform _ L).
  - apply splice_loop_step in Hloop as [_ Hn]. simpl in Hn.
    rewrite length_zip_same in Hn by done.
    intros Hnil. rewrite Hnil in Hn. destruct input_ids; simpl in *; [done|lia].
  - eapply splice_loop_shape; [by apply zip_well_formed| | |exact Hloop]; done.
Qed.

(** *** Batches without graph samples *)

Lemma splice_loop_text_only `{!ScalarLaws T} tc protect (feats : list tensor)
    dummy st input_ids (inputs_embeds : list tensor) :
  length inputs_embeds = length input_ids ->
  Forall (fun r => eq_sum (graph_patch_token tc) r = 0) input_ids ->
  splice_loop tc protect feats dummy st (zip input_ids inputs_embeds)
  = Ok {| new_input_embeds := new_input_embeds st ++ inputs_embeds;
          cur_graph_idx := cur_graph_idx st + length input_ids;
          cur_new_input_embeds := cur_new_input_embeds st |}.
Proof.
  intros Hlen Hall. revert st inputs_embeds Hlen.
  induction Hall as [|r ids Hr _ IH]; intros st [|e es] Hlen; simpl in Hlen;
    try done.
  - simpl. rewrite app_nil_r, Nat.add_0_r. by destruct st.
  - cbn [zip zip_with splice_loop]. unfold splice_sample at 1. res_simpl.
    rewrite Hr. cbn [Nat.eqb].
    rewrite tensor_sum_scale_zero, add_scalar_zero. res_simpl.
    rewrite IH by lia. simpl. rewrite <- app_assoc. simpl.
    do 2 f_equal. lia.
Qed.

(** A batch in which no sample has a PATCH marker passes exactly when as
    many feature sets are supplied as the batch has samples, and then the
    embeddings come back unchanged. *)
Theorem text_only_batch (SL : ScalarLaws T) tc protect (feats : list tensor)
    dummy input_ids (inputs_embeds : list tensor) L :
  input_ids <> [] ->
  length inputs_embeds = length input_ids ->
  Forall (fun r => eq_sum (graph_patch_token tc) r = 0) input_ids ->
  Forall (fun e => length e = L) inputs_embeds ->
  splice_batch tc protect feats dummy input_ids inputs_embeds
  = if Nat.eqb (length input_ids) (length feats)
    then Ok inputs_embeds
    else Err AssertionError.
Proof.
  intros Hne Hlen Hall Hes. unfold splice_batch.
  rewrite splice_loop_text_only by done. res_simpl. simpl.
  destruct (Nat.eqb (length input_ids) (length feats)); [|done]. res_simpl.
  apply (torch_stack_uniform _ L); [|done].
  intros ->. destruct input_ids; simpl in *; [done|lia].
Qed.

Lemma splice_loop_no_features tc protect dummy st samples st' :
  splice_loop tc protect ([] : list tensor) dummy st samples = Ok st' ->
  cur_graph_idx st' = cur_graph_idx st + length samples
  /\ length (new_input_embeds st')
     = length (new_input_embeds st) + length samples.
Proof.
  revert st. induction samples as [|[ids e] rest IH]; intros st Hloop.
  - injection Hloop as <-. simpl. lia.
  - cbn [splice_loop] in Hloop.
    destruct (splice_sample tc protect [] dummy st (ids, e)) as [st1|] eqn:Hs;
      [|done].
    revert Hloop. res_simpl. intros Hloop. apply IH in Hloop as [Hc Hn].
    revert Hs. unfold splice_sample. res_simpl.
    destruct (Nat.eqb (eq_sum (graph_patch_token tc) ids) 0).
    + intros [= <-]. simpl in *. rewrite length_app in Hn. simpl in Hn. lia.
    + rewrite (index_None [] (cur_graph_idx st)) by done.
      by destruct (use_graph_start_end tc).
Qed.

(** Without any feature set the splicer never returns a batch. *)
Lemma splice_batch_no_features tc protect dummy input_ids
    (inputs_embeds : list tensor) :
  exists err,
    splice_batch tc protect [] dummy input_ids inputs_embeds = Err err.
Proof.
  unfold splice_batch.
  destruct (splice_loop _ _ _ _ _ _) as [st|err] eqn:Hloop; res_simpl; [|eauto].
  apply splice_loop_no_features in Hloop as [Hc Hn]. simpl in *.
  destruct (Nat.eqb_spec (cur_graph_idx st) 0) as [H0|]; res_simpl; [|eauto].
  assert (new_input_embeds st = []) as ->.
  { apply length_zero_iff_nil. lia. }
  simpl. eauto.
Qed.

(** *** The [protect] branch *)

Lemma start_end_loop_protect tc (feats : list tensor) ids (e : tensor) xs idx cn :
  start_end_loop tc true feats ids e xs idx cn
  = start_end_loop tc false feats ids e xs idx cn.
Proof.
  revert idx cn. induction xs as [|p rest IH]; intros idx cn; [done|].
  cbn [start_end_loop].
  destruct (index feats idx) as [f|]; res_simpl; [|done].
  destruct (index ids (p + length f + 1)) as [t|]; res_simpl; [|done].
  destruct (Z.eqb t (graph_end_token tc)); res_simpl; [|done].
  by rewrite IH, !merge_start_end_protect.
Qed.

Lemma splice_sample_protect tc (feats : list tensor) dummy st s :
  splice_sample tc true feats dummy st s = splice_sample tc false feats dummy st s.
Proof.
  unfold splice_sample. rewrite start_end_loop_protect.
  destruct (Nat.eqb _ 0); [done|]. destruct (use_graph_start_end tc); [done|].
  destruct (index feats (cur_graph_idx st)) as [f|]; res_simpl; [|done].
  destruct (negb _); [done|].
  destruct (index _ 0) as [m|]; res_simpl; [|done].
  by rewrite !merge_patch_protect.
Qed.

(** The sequences built with [orig_embeds_params] set (five pieces, the
    outer ones detached) hold the values of the ones built without it
    (three pieces): the flag changes no value and no exception. *)
Theorem protect_does_not_change_values tc (feats : list tensor) dummy
    input_ids inputs_embeds :
  splice_batch tc true feats dummy input_ids inputs_embeds
  = splice_batch tc false feats dummy input_ids inputs_embeds.
Proof.
  unfold splice_batch. f_equal.
  generalize (init_state (T := T)).
  induction (zip input_ids inputs_embeds) as [|s rest IH]; intros st; [done|].
  cbn [splice_loop]. rewrite splice_sample_protect.
  destruct (splice_sample tc false feats dummy st s); res_simpl; [|done].
  apply IH.
Qed.

(** *** The last region of a start/end sample *)

(** In a valid start/end sample the sequence appended keeps the embeddings
    up to and including the last START marker and from its END marker on,
    and holds the feature vectors of the last feature set in between,
    whatever tokens the span holds. *)
Theorem start_end_last_region_spliced tc protect (feats : list tensor) dummy
    st ids (e : tensor) starts p f :
  use_graph_start_end tc = true ->
  eq_sum (graph_patch_token tc) ids <> 0 ->
  eq_sum (graph_start_token tc) ids = eq_sum (graph_end_token tc) ids ->
  where_eq (graph_start_token tc) ids = starts ++ [p] ->
  (forall j q, (starts ++ [p]) !! j = Some q ->
               region_ok tc feats ids (cur_graph_idx st) j q) ->
  feats !! (cur_graph_idx st + length starts) = Some f ->
  length e = length ids ->
  exists out : tensor,
    splice_sample tc protect feats dummy st (ids, e)
    = Ok {| new_input_embeds := new_input_embeds st ++ [out];
            cur_graph_idx := cur_graph_idx st + length (starts ++ [p]);
            cur_new_input_embeds := Some out |}
    /\ length out = length e
    /\ (forall i, i <= p -> out !! i = e !! i)
    /\ (forall j, j < length f -> out !! (p + 1 + j) = f !! j)
    /\ (forall i, p + length f + 1 <= i -> out !! i = e !! i).
Proof.
  intros Hmode Hpatch Hcount Hwhere Hok Hf Hlen.
  destruct (start_end_sample_merged tc protect feats dummy st ids e starts p f)
    as [Hs Hl]; try done.
  assert (Hp : p < length e).
  { destruct (Hok (length starts) p) as (f' & _ & Hend).
    { by rewrite lookup_app_r, Nat.sub_diag. }
    apply lookup_lt_Some in Hend. lia. }
  exists (merge_start_end protect p f e). repeat split; try done.
  - intros i Hi. by apply merge_start_end_lookup_before.
  - intros j Hj. by apply merge_start_end_lookup_span.
  - intros i Hi. by apply merge_start_end_lookup_after.
Qed.

End BatchFacts.

(** * Further properties of [forward] *)

Section ForwardCalls.

Context {T : Type} `{ST : Scalar T} {G : Type}.

Local Abbreviation tensor := (list (list T)).

Lemma mapM_call_tower (tw : GraphTower (T := T) (G := G)) gs :
  mapM (call_tower tw) gs
  = (map CallGraphTower gs, Ok (map (tower_forward tw) gs)).
Proof.
  induction gs as [|g gs IH]; [done|].
  cbn [mapM]. rewrite IH.
  cbn [mbind M_bind mret M_ret fst snd call_tower app map].
  by rewrite app_nil_r.
Qed.

Lemma mapM_call_tower_pairs (tw : GraphTower (T := T) (G := G)) ds :
  mapM (fun d => node_forward_out_1 ← call_tower tw (fst d);
                 node_forward_out_2 ← call_tower tw (snd d);
                 mret [node_forward_out_1; node_forward_out_2]) ds
  = (concat (map (fun d => [CallGraphTower (fst d); CallGraphTower (snd d)]) ds),
     Ok (map (fun d => [tower_forward tw (fst d); tower_forward tw (snd d)]) ds)).
Proof.
  induction ds as [|d ds IH]; [done|].
  cbn [mapM]. rewrite IH.
  cbn [mbind M_bind mret M_ret fst snd call_tower app map concat].
  by rewrite app_nil_r.
Qed.

(** The encoder is called once per graph, in the order of the list: for a
    list of [Data] objects one feature set per graph, for a list of dicts
    two per dict, [graph_1] before [graph_2]; an empty list raises the
    index error of [graph_data[0]] before any call. *)
Theorem encode_graphs_calls (tw : GraphTower (T := T) (G := G)) :
  (forall gs, gs <> [] ->
     encode_graphs tw (DataList gs)
     = (map CallGraphTower gs, Ok (map (tower_forward tw) gs)))
  /\ (forall ds, ds <> [] ->
        encode_graphs tw (DictList ds)
        = (concat (map (fun d => [CallGraphTower (fst d); CallGraphTower (snd d)]) ds),
           Ok (concat (map (fun d => [tower_forward tw (fst d);
                                      tower_forward tw (snd d)]) ds)))
        /\ length (concat (map (fun d => [tower_forward tw (fst d);
                                          tower_forward tw (snd d)]) ds))
           = 2 * length ds)
  /\ encode_graphs tw (DataList []) = ([], Err IndexError)
  /\ encode_graphs tw (DictList []) = ([], Err IndexError).
Proof.
  split; [|split; [|done]].
  - intros [|g gs] Hne; [done|]. unfold encode_graphs.
    cbn [graph_list_len length Nat.eqb]. apply mapM_call_tower.
  - intros [|d ds] Hne; [done|]. split.
    + unfold encode_graphs. cbn [graph_list_len length Nat.eqb].
      rewrite mapM_call_tower_pairs.
      cbn [mbind M_bind mret M_ret fst snd]. by rewrite app_nil_r.
    + generalize (d :: ds). intros l. induction l as [|x l IH]; simpl; lia.
Qed.

(** A list whose elements are neither [Data] objects nor dicts, such as
    the [[None]] that generation passes when no graph is given, yields no
    feature set, and then the call never returns: on the splicing path
    every such call raises. *)
Theorem forward_without_features_raises (self : GraphLlamaModel (G := G)) tw
    (input_ids : list (list Z)) (inputs_embeds : option (list tensor)) n :
  get_graph_tower self = Some tw ->
  negb (Nat.eqb (shape1 input_ids) 1) || training self = true ->
  exists err,
    snd (forward self (Some input_ids) inputs_embeds (GraphList (OtherList n)))
    = Err err.
Proof.
  intros Htw Hguard.
  assert (Hgen : forall es : list tensor,
            exists err,
              snd (forward self (Some input_ids) (Some es)
                     (GraphList (OtherList n))) = Err err).
  { intros es. unfold forward. rewrite Htw, Hguard.
    cbn [mbind M_bind mret M_ret fst snd app]. unfold encode_graphs.
    cbn [graph_list_len].
    destruct (Nat.eqb n 0); [cbn; eauto|].
    cbn [mbind M_bind mret M_ret fst snd app].
    destruct (graph_projector self) as [P|]; [|cbn; eauto].
    cbn [mbind M_bind mret M_ret fst snd app mapM].
    unfold call_projector.
    destruct (Linear_forward P (torch_zeros 256 128)) as [dummy|err];
      [|cbn; eauto].
    cbn [mbind M_bind mret M_ret fst snd app lift].
    apply splice_batch_no_features. }
  destruct inputs_embeds as [es|]; [apply Hgen|].
  destruct (Hgen (map (map (embed_tokens self)) input_ids)) as [err Herr].
  exists err. exact Herr.
Qed.

End ForwardCalls.

(** * Further properties of the token registrar *)

(** ** The vocabulary *)

Lemma has_token_app tok l t :
  has_token (tok ++ l) t = has_token tok t || has_token l t.
Proof. unfold has_token. apply existsb_app. Qed.

Lemma has_token_true tok t : has_token tok t = true <-> t ∈ tok.
Proof.
  unfold has_token. rewrite existsb_exists. split.
  - intros (u & Hin & Heq). apply String.eqb_eq in Heq as ->.
    by apply list_elem_of_In.
  - intros Hin. exists t. split; [by apply list_elem_of_In|apply String.eqb_refl].
Qed.

(** [add_tokens] appends: the tokens of the vocabulary keep their ids, the
    tokens added are among the ones asked for, and all of them are in the
    vocabulary afterwards. *)
Lemma add_tokens_spec tok news :
  exists added,
    fst (add_tokens tok news) = tok ++ added
    /\ snd (add_tokens tok news) = length added
    /\ (forall t, t ∈ added -> t ∈ news)
    /\ (forall t, t ∈ news -> t ∈ tok ++ added).
Proof.
  revert tok. induction news as [|t rest IH]; intros tok.
  - exists []. simpl. rewrite app_nil_r. repeat split; try done.
    intros t Ht. by apply elem_of_nil in Ht.
  - simpl. destruct (has_token tok t) eqn:Hhas.
    + destruct (IH tok) as (added & Hfst & Hsnd & Hsub & Hall).
      exists added. repeat split; try done.
      * intros u Hu. right. by apply Hsub.
      * intros u [->|Hu]%elem_of_cons; [|by apply Hall].
        apply elem_of_app. left. by apply has_token_true.
    + destruct (IH (tok ++ [t])) as (added & Hfst & Hsnd & Hsub & Hall).
      exists (t :: added). simpl. rewrite Hfst, Hsnd, <- app_assoc.
      repeat split; try done.
      * intros u [->|Hu]%elem_of_cons; [by left|right; by apply Hsub].
      * intros u [->|Hu]%elem_of_cons.
        -- apply elem_of_app. right. by left.
        -- specialize (Hall u Hu). by rewrite <- app_assoc in Hall.
Qed.

Lemma add_tokens_present tok news :
  Forall (fun t => has_token tok t = true) news ->
  add_tokens tok news = (tok, 0).
Proof.
  induction 1 as [|t rest Ht _ IH]; simpl; [done|]. by rewrite Ht.
Qed.

Lemma index_from_Some t j tok i :
  index_from t j tok = Some i ->
  j <= i /\ tok !! (i - j) = Some t.
Proof.
  revert j. induction tok as [|u rest IH]; intros j; simpl; [done|].
  destruct (String.eqb_spec t u) as [->|Hne].
  - intros [= <-]. split; [lia|]. by rewrite Nat.sub_diag.
  - intros Hi. apply IH in Hi as [Hle Hl]. split; [lia|].
    by replace (i - j) with (S (i - S j)) by lia.
Qed.

Lemma index_from_present t j tok :
  t ∈ tok -> exists i, index_from t j tok = Some i.
Proof.
  revert j. induction tok as [|u rest IH]; intros j Hin; simpl.
  - by apply elem_of_nil in Hin.
  - destruct (String.eqb_spec t u) as [->|Hne]; [eauto|].
    apply elem_of_cons in Hin as [->|Hin]; [done|]. by apply IH.
Qed.

(** The id recorded for a token of the vocabulary is a position that holds
    the token. *)
Lemma id_of_present tok t :
  t ∈ tok ->
  exists i, id_of tok t = Z.of_nat i /\ tok !! i = Some t.
Proof.
  intros Hin. unfold id_of, convert_token_to_id.
  destruct (index_from_present t 0 tok Hin) as [i Hi]. rewrite Hi.
  apply index_from_Some in Hi as [_ Hl]. rewrite Nat.sub_0_r in Hl. eauto.
Qed.

Lemma add_tokens_count tok news :
  snd (add_tokens tok news) <= length news
  /\ ((exists t, t ∈ news /\ t ∈ tok) -> snd (add_tokens tok news) < length news).
Proof.
  revert tok. induction news as [|t rest IH]; intros tok; simpl.
  - split; [lia|]. intros (t & Ht & _). by apply elem_of_nil in Ht.
  - destruct (has_token tok t) eqn:Hhas.
    + destruct (IH tok) as [Hle _]. split; [lia|]. intros _. lia.
    + destruct (IH (tok ++ [t])) as [Hle Hlt]. simpl. split; [lia|].
      intros (u & Hu & Hin). apply elem_of_cons in Hu as [->|Hu].
      * apply has_token_true in Hin. congruence.
      * apply -> Nat.succ_lt_mono. apply Hlt. exists u. split; [done|].
        apply elem_of_app. by left.
Qed.

(** ** The tables *)

Section RegistrarInvariants.

Context {T : Type} `{ST : Scalar T}.

Local Abbreviation tensor := (list (list T)).

Lemma assign_last_length k (row : list T) (table : tensor) :
  length (assign_last k row table) = length table.
Proof.
  unfold assign_last. rewrite length_app, length_take, length_replicate. lia.
Qed.

Lemma assign_last_lookup k (row : list T) (table : tensor) i :
  i < length table - k -> assign_last k row table !! i = table !! i.
Proof.
  intros Hi. unfold assign_last.
  rewrite lookup_app_l by (rewrite length_take; lia).
  by rewrite lookup_take_lt.
Qed.

Lemma resize_lookup (fresh : nat -> list T) n (table : tensor) i :
  i < n -> i < length table -> resize fresh n table !! i = table !! i.
Proof.
  intros Hn Hi. unfold resize.
  rewrite lookup_app_l by (rewrite length_take; lia).
  by rewrite lookup_take_lt.
Qed.

Lemma resize_same (fresh : nat -> list T) (table : tensor) :
  resize fresh (length table) table = table.
Proof.
  unfold resize. rewrite take_ge, Nat.sub_diag by lia. apply app_nil_r.
Qed.

(** The marker rows of an adapter checkpoint touch the last rows of the
    input table and nothing else. *)
Lemma load_adapter_rows_inv k pre (self self2 : @CausalLM T) :
  load_adapter_rows k pre self = Ok self2 ->
  output_embeddings self2 = output_embeddings self
  /\ embedding_dim self2 = embedding_dim self
  /\ vision_config self2 = vision_config self
  /\ model_orig_embeds_params self2 = model_orig_embeds_params self
  /\ input_requires_grad self2 = input_requires_grad self
  /\ output_requires_grad self2 = output_requires_grad self
  /\ (k <= length (input_embeddings self) ->
      length (input_embeddings self2) = length (input_embeddings self))
  /\ (forall i, i < length (input_embeddings self) - k ->
                input_embeddings self2 !! i = input_embeddings self !! i).
Proof.
  unfold load_adapter_rows. destruct pre as [[d w]|]; [|by intros [= <-]].
  destruct (Nat.eqb_spec k 2) as [->|]; [|done]. cbn [negb].
  destruct (Nat.eqb_spec (length (input_embeddings self)) (length w)) as [Hlw|];
    cbn [andb].
  - destruct (Nat.eqb (embedding_dim self) d).
    + intros [= <-]. cbn. repeat split; try done.
      * intros Hk. unfold assign_last_rows.
        rewrite length_app, length_take, length_drop. lia.
      * intros i Hi. unfold assign_last_rows.
        rewrite lookup_app_l by (rewrite length_take; lia).
        by rewrite lookup_take_lt.
    + by destruct (Nat.eqb (length w) 2).
  - destruct (Nat.eqb_spec (length w) 2) as [Hw2|]; [|done].
    destruct (Nat.eqb (embedding_dim self) d); [|done].
    intros [= <-]. cbn. repeat split; try done.
    + intros Hk. unfold assign_last_rows.
      rewrite length_app, length_take. lia.
    + intros i Hi. unfold assign_last_rows.
      rewrite lookup_app_l by (rewrite length_take; lia).
      by rewrite lookup_take_lt.
Qed.

Lemma length_input_mean_init k (self : @CausalLM T) :
  length (input_embeddings (mean_init k self)) = length (input_embeddings self).
Proof.
  rewrite input_mean_init. destruct (Nat.ltb 0 k); [|done].
  apply assign_last_length.
Qed.

Lemma length_output_mean_init k (self : @CausalLM T) :
  length (output_embeddings (mean_init k self)) = length (output_embeddings self).
Proof.
  rewrite output_mean_init. destruct (Nat.ltb 0 k); [|done].
  apply assign_last_length.
Qed.

Lemma lookup_input_mean_init k (self : @CausalLM T) i :
  i < length (input_embeddings self) - k ->
  input_embeddings (mean_init k self) !! i = input_embeddings self !! i.
Proof.
  intros Hi. rewrite input_mean_init. destruct (Nat.ltb 0 k); [|done].
  by apply assign_last_lookup.
Qed.

Lemma lookup_output_mean_init k (self : @CausalLM T) i :
  i < length (output_embeddings self) - k ->
  output_embeddings (mean_init k self) !! i = output_embeddings self !! i.
Proof.
  intros Hi. rewrite output_mean_init. destruct (Nat.ltb 0 k); [|done].
  by apply assign_last_lookup.
Qed.

Lemma vision_config_tune_adapter b (self : @CausalLM T) :
  vision_config (tune_adapter b self) = vision_config self.
Proof. by destruct b. Qed.

Lemma vision_config_mean_init k (self : @CausalLM T) :
  vision_config (mean_init k self) = vision_config self.
Proof. unfold mean_init. by destruct (Nat.ltb 0 k). Qed.

End RegistrarInvariants.

Create Rewrite HintDb registrar_runs.

Section RegistrarRuns.

Context {T : Type} `{ST : Scalar T}.

Local Abbreviation tensor := (list (list T)).

#[local] Hint Rewrite @input_with_vision_config @output_with_vision_config
  @dim_with_vision_config @input_tune_adapter @output_tune_adapter
  @input_resize @output_resize @dim_resize @input_mean_init @output_mean_init
  : registrar_runs.

Lemma CausalLM_ext (a b : @CausalLM T) :
  embedding_dim a = embedding_dim b ->
  input_embeddings a = input_embeddings b ->
  output_embeddings a = output_embeddings b ->
  input_requires_grad a = input_requires_grad b ->
  output_requires_grad a = output_requires_grad b ->
  model_orig_embeds_params a = model_orig_embeds_params b ->
  vision_config a = vision_config b ->
  a = b.
Proof. destruct a, b. simpl. by intros -> -> -> -> -> -> ->. Qed.

(** A run in patch-only mode: one token, one resize, nothing else. *)
Lemma initialize_patch_only (fresh_in fresh_out : nat -> list T)
    (tokenizer : Tokenizer) tune pre (self : @CausalLM T) :
  let tok1 := fst (add_tokens tokenizer [DEFAULT_GRAPH_PATCH_TOKEN]) in
  initialize_graph_tokenizer fresh_in fresh_out false tokenizer tune pre self
  = Ok ({| embedding_dim := embedding_dim self;
           input_embeddings :=
             resize fresh_in (length tok1) (input_embeddings self);
           output_embeddings :=
             resize fresh_out (length tok1) (output_embeddings self);
           input_requires_grad := input_requires_grad self;
           output_requires_grad := output_requires_grad self;
           model_orig_embeds_params := model_orig_embeds_params self;
           vision_config :=
             {| graph_patch_token := id_of tok1 DEFAULT_GRAPH_PATCH_TOKEN;
                graph_start_token := graph_start_token (vision_config self);
                graph_end_token := graph_end_token (vision_config self);
                use_graph_start_end := false |} |}, tok1).
Proof. done. Qed.

(** A run in start/end mode that succeeds: the state [X] before the
    adapter rows are loaded, and the result. *)
Lemma initialize_start_end_inv (fresh_in fresh_out : nat -> list T)
    (tokenizer : Tokenizer) tune pre (self self' : @CausalLM T) tok' :
  initialize_graph_tokenizer fresh_in fresh_out true tokenizer tune pre self
  = Ok (self', tok') ->
  let tok1 := fst (add_tokens tokenizer [DEFAULT_GRAPH_PATCH_TOKEN]) in
  let added := add_tokens tok1 [DEFAULT_G_START_TOKEN; DEFAULT_G_END_TOKEN] in
  let k := snd added in
  let in1 := resize fresh_in (length tok1) (input_embeddings self) in
  let out1 := resize fresh_out (length tok1) (output_embeddings self) in
  tok' = fst added
  /\ exists X self3 : @CausalLM T,
       input_embeddings X
       = in1 ++ replicate k (mean_dim0 (embedding_dim self) in1)
       /\ output_embeddings X
          = out1 ++ replicate k (mean_dim0 (embedding_dim self) out1)
       /\ embedding_dim X = embedding_dim self
       /\ model_orig_embeds_params X
          = (if tune then Some (input_embeddings X)
             else model_orig_embeds_params self)
       /\ input_requires_grad X
          = (if tune then true else input_requires_grad self)
       /\ output_requires_grad X
          = (if tune then false else output_requires_grad self)
       /\ load_adapter_rows k pre X = Ok self3
       /\ self'
          = with_vision_config
              {| graph_patch_token := id_of tok' DEFAULT_GRAPH_PATCH_TOKEN;
                 graph_start_token := id_of tok' DEFAULT_G_START_TOKEN;
                 graph_end_token := id_of tok' DEFAULT_G_END_TOKEN;
                 use_graph_start_end := true |} self3.
Proof.
  intros Hrun tok1 added k in1 out1.
  pose proof (add_tokens_length tok1
                [DEFAULT_G_START_TOKEN; DEFAULT_G_END_TOKEN]) as Hlen.
  fold added in Hlen. fold k in Hlen.
  revert Hrun. unfold initialize_graph_tokenizer. cbv zeta.
  fold tok1. fold added. fold k.
  match goal with
  | |- context [load_adapter_rows k pre ?X] => set (X0 := X)
  end.
  destruct (load_adapter_rows k pre X0) as [self3|] eqn:Hload; res_simpl; [|done].
  intros [= <- <-]. split; [done|]. exists X0, self3.
  assert (Hin : input_embeddings X0
                = in1 ++ replicate k (mean_dim0 (embedding_dim self) in1)).
  { unfold X0. autorewrite with registrar_runs. rewrite Hlen. fold in1.
    apply resize_then_mean, resize_length. }
  assert (Hout : output_embeddings X0
                 = out1 ++ replicate k (mean_dim0 (embedding_dim self) out1)).
  { unfold X0. autorewrite with registrar_runs. rewrite Hlen. fold out1.
    apply resize_then_mean, resize_length. }
  split; [done|]. split; [done|].
  split. { unfold X0, tune_adapter, mean_init.
           by destruct tune, (Nat.ltb 0 k). }
  split. { unfold X0, tune_adapter, mean_init.
           by destruct tune, (Nat.ltb 0 k). }
  split. { unfold X0, tune_adapter, mean_init.
           by destruct tune, (Nat.ltb 0 k). }
  split. { unfold X0, tune_adapter, mean_init.
           by destruct tune, (Nat.ltb 0 k). }
  split; [done|].
  destruct (load_adapter_rows_inv _ _ _ _ Hload) as (_ & _ & Hvc & _).
  rewrite Hvc. unfold X0.
  rewrite vision_config_tune_adapter, vision_config_mean_init. done.
Qed.

(** Without an adapter every run succeeds. *)
Lemma initialize_no_adapter_Ok (fresh_in fresh_out : nat -> list T)
    se (tokenizer : Tokenizer) tune (self : @CausalLM T) :
  exists self' tok',
    initialize_graph_tokenizer fresh_in fresh_out se tokenizer tune None self
    = Ok (self', tok').
Proof.
  destruct se; [|rewrite initialize_patch_only; eauto].
  unfold initialize_graph_tokenizer. cbv zeta. cbn [load_adapter_rows].
  res_simpl. eauto.
Qed.

(** After a run both tables have one row per token of the vocabulary. *)
Lemma initialize_table_lengths (fresh_in fresh_out : nat -> list T)
    se (tokenizer : Tokenizer) tune pre (self self' : @CausalLM T) tok' :
  initialize_graph_tokenizer fresh_in fresh_out se tokenizer tune pre self
  = Ok (self', tok') ->
  length (input_embeddings self') = length tok'
  /\ length (output_embeddings self') = length tok'.
Proof.
  destruct se.
  - intros Hrun.
    pose proof (add_tokens_length
                  (fst (add_tokens tokenizer [DEFAULT_GRAPH_PATCH_TOKEN]))
                  [DEFAULT_G_START_TOKEN; DEFAULT_G_END_TOKEN]) as Hlen.
    apply initialize_start_end_inv in Hrun
      as (-> & X & self3 & Hin & Hout & _ & _ & _ & _ & Hload & ->).
    destruct (load_adapter_rows_inv _ _ _ _ Hload)
      as (Ho & _ & _ & _ & _ & _ & Hl & _).
    autorewrite with registrar_runs. rewrite Ho, Hl, Hin, Hout.
    + rewrite !length_app, !length_replicate, !resize_length. lia.
    + rewrite Hin, length_app, length_replicate. lia.
  - rewrite initialize_patch_only. intros [= <- <-]. cbn.
    by rewrite !resize_length.
Qed.

End RegistrarRuns.

Section RegistrarTheorems.

Context {T : Type} `{ST : Scalar T}.

Local Abbreviation tensor := (list (list T)).

Lemma patch_in_tok1 (tokenizer : Tokenizer) :
  DEFAULT_GRAPH_PATCH_TOKEN
  ∈ fst (add_tokens tokenizer [DEFAULT_GRAPH_PATCH_TOKEN]).
Proof.
  destruct (add_tokens_spec tokenizer [DEFAULT_GRAPH_PATCH_TOKEN])
    as (added & -> & _ & _ & Hall).
  apply Hall. by left.
Qed.

(** After a run, whatever its arguments: both tables have one row per token
    of the vocabulary, the mode is recorded, and the marker ids recorded in
    the configuration are positions of the vocabulary that hold the marker
    tokens, so each of them indexes a row of both tables. *)
Theorem registrar_marker_ids (fresh_in fresh_out : nat -> list T) se
    (tokenizer : Tokenizer) tune pre (self self' : @CausalLM T) tok' :
  initialize_graph_tokenizer fresh_in fresh_out se tokenizer tune pre self
  = Ok (self', tok') ->
  length (input_embeddings self') = length tok'
  /\ length (output_embeddings self') = length tok'
  /\ use_graph_start_end (vision_config self') = se
  /\ (exists i, graph_patch_token (vision_config self') = Z.of_nat i
                /\ tok' !! i = Some DEFAULT_GRAPH_PATCH_TOKEN
                /\ i < length (input_embeddings self'))
  /\ (se = true ->
      (exists i, graph_start_token (vision_config self') = Z.of_nat i
                 /\ tok' !! i = Some DEFAULT_G_START_TOKEN
                 /\ i < length (input_embeddings self'))
      /\ (exists i, graph_end_token (vision_config self') = Z.of_nat i
                    /\ tok' !! i = Some DEFAULT_G_END_TOKEN
                    /\ i < length (input_embeddings self'))).
Proof.
  intros Hrun.
  destruct (initialize_table_lengths _ _ _ _ _ _ _ _ _ Hrun) as [Hli Hlo].
  split; [done|]. split; [done|]. rewrite Hli.
  assert (Hid : forall t, t ∈ tok' ->
            exists i, id_of tok' t = Z.of_nat i /\ tok' !! i = Some t
                      /\ i < length tok').
  { intros t Ht. destruct (id_of_present tok' t Ht) as (i & Hi & Hl).
    exists i. repeat split; try done. by apply lookup_lt_Some in Hl. }
  destruct se.
  - apply initialize_start_end_inv in Hrun as (Htok & X & self3 & _ & _ & _ & _ & _ & _ & _ & ->).
    destruct (add_tokens_spec
                (fst (add_tokens tokenizer [DEFAULT_GRAPH_PATCH_TOKEN]))
                [DEFAULT_G_START_TOKEN; DEFAULT_G_END_TOKEN])
      as (added & Hfst & _ & _ & Hall).
    rewrite <- Htok in Hfst. cbn.
    split; [done|]. split; [|intros _; split].
    + apply Hid. rewrite Hfst. apply elem_of_app. left. apply patch_in_tok1.
    + apply Hid. rewrite Hfst. apply Hall. by left.
    + apply Hid. rewrite Hfst. apply Hall. right. by left.
  - rewrite initialize_patch_only in Hrun. injection Hrun as <- <-. cbn.
    split; [done|]. split; [|done]. apply Hid, patch_in_tok1.
Qed.

(** A run only appends: the tokens of the vocabulary keep their ids, at
    most three tokens are added, and the rows of the tokens that were in
    the vocabulary are the rows they had, in both tables. *)
Theorem registrar_keeps_existing (fresh_in fresh_out : nat -> list T) se
    (tokenizer : Tokenizer) tune pre (self self' : @CausalLM T) tok' :
  initialize_graph_tokenizer fresh_in fresh_out se tokenizer tune pre self
  = Ok (self', tok') ->
  (exists added, tok' = tokenizer ++ added /\ length added <= 3)
  /\ (forall i, i < length tokenizer -> i < length (input_embeddings self) ->
                input_embeddings self' !! i = input_embeddings self !! i)
  /\ (forall i, i < length tokenizer -> i < length (output_embeddings self) ->
                output_embeddings self' !! i = output_embeddings self !! i).
Proof.
  intros Hrun.
  destruct (add_tokens_spec tokenizer [DEFAULT_GRAPH_PATCH_TOKEN])
    as (a1 & Hf1 & Hs1 & _ & _).
  pose proof (proj1 (add_tokens_count tokenizer [DEFAULT_GRAPH_PATCH_TOKEN])) as Hc1.
  rewrite Hs1 in Hc1. simpl in Hc1.
  assert (Hl1 : length (fst (add_tokens tokenizer [DEFAULT_GRAPH_PATCH_TOKEN]))
                = length tokenizer + length a1).
  { by rewrite Hf1, length_app. }
  destruct se.
  - destruct (add_tokens_spec
                (fst (add_tokens tokenizer [DEFAULT_GRAPH_PATCH_TOKEN]))
                [DEFAULT_G_START_TOKEN; DEFAULT_G_END_TOKEN])
      as (a2 & Hf2 & Hs2 & _ & _).
    pose proof (proj1 (add_tokens_count
                  (fst (add_tokens tokenizer [DEFAULT_GRAPH_PATCH_TOKEN]))
                  [DEFAULT_G_START_TOKEN; DEFAULT_G_END_TOKEN])) as Hc2.
    rewrite Hs2 in Hc2. simpl in Hc2.
    apply initialize_start_end_inv in Hrun
      as (-> & X & self3 & Hin & Hout & _ & _ & _ & _ & Hload & ->).
    destruct (load_adapter_rows_inv _ _ _ _ Hload)
      as (Ho & _ & _ & _ & _ & _ & _ & Hrows).
    split; [|split].
    + exists (a1 ++ a2). rewrite Hf2, Hf1, <- app_assoc, length_app.
      split; [done|lia].
    + intros i Hi Hi'. rewrite input_with_vision_config, Hrows.
      * rewrite Hin, lookup_app_l.
        -- apply resize_lookup; [lia|done].
        -- rewrite resize_length. lia.
      * rewrite Hin, length_app, length_replicate, resize_length. lia.
    + intros i Hi Hi'. rewrite output_with_vision_config, Ho, Hout.
      rewrite lookup_app_l.
      * apply resize_lookup; [lia|done].
      * rewrite resize_length. lia.
  - rewrite initialize_patch_only in Hrun.
    set (tok1 := fst (add_tokens tokenizer [DEFAULT_GRAPH_PATCH_TOKEN])) in *.
    injection Hrun as <- <-.
    cbn [input_embeddings output_embeddings].
    split; [|split].
    + exists a1. split; [done|lia].
    + intros i Hi Hi'. apply resize_lookup; [lia|done].
    + intros i Hi Hi'. apply resize_lookup; [lia|done].
Qed.

End RegistrarTheorems.

Section RegistrarAdapter.

Context {T : Type} `{ST : Scalar T}.

Local Abbreviation tensor := (list (list T)).

#[local] Hint Rewrite @input_with_vision_config @output_with_vision_config
  @dim_with_vision_config @input_tune_adapter @output_tune_adapter
  @input_resize @output_resize @dim_resize @input_mean_init @output_mean_init
  : registrar_runs.

(** A run in start/end mode is the loading of the adapter rows into the
    state [X] that the resizes, the mean initialisation and the snapshot
    leave. *)
Lemma initialize_start_end_eq (fresh_in fresh_out : nat -> list T)
    (tokenizer : Tokenizer) (tune : bool) pre (self : @CausalLM T) :
  let tok1 := fst (add_tokens tokenizer [DEFAULT_GRAPH_PATCH_TOKEN]) in
  let added := add_tokens tok1 [DEFAULT_G_START_TOKEN; DEFAULT_G_END_TOKEN] in
  let k := snd added in
  let in1 := resize fresh_in (length tok1) (input_embeddings self) in
  let out1 := resize fresh_out (length tok1) (output_embeddings self) in
  exists X : @CausalLM T,
    input_embeddings X
    = in1 ++ replicate k (mean_dim0 (embedding_dim self) in1)
    /\ output_embeddings X
       = out1 ++ replicate k (mean_dim0 (embedding_dim self) out1)
    /\ embedding_dim X = embedding_dim self
    /\ model_orig_embeds_params X
       = (if tune then Some (input_embeddings X)
          else model_orig_embeds_params self)
    /\ initialize_graph_tokenizer fresh_in fresh_out true tokenizer tune pre self
       = match load_adapter_rows k pre X with
         | Ok self3 =>
             Ok (with_vision_config
                   {| graph_patch_token :=
                        id_of (fst added) DEFAULT_GRAPH_PATCH_TOKEN;
                      graph_start_token := graph_start_token (vision_config self3);
                      graph_end_token := graph_end_token (vision_config self3);
                      use_graph_start_end :=
                        use_graph_start_end (vision_config self3) |} self3,
                 fst added)
         | Err e => Err e
         end.
Proof.
  intros tok1 added k in1 out1.
  pose proof (add_tokens_length tok1
                [DEFAULT_G_START_TOKEN; DEFAULT_G_END_TOKEN]) as Hlen.
  fold added in Hlen. fold k in Hlen.
  unfold initialize_graph_tokenizer. cbv zeta.
  fold tok1. fold added. fold k.
  match goal with
  | |- context [load_adapter_rows k pre ?X] => set (X0 := X)
  end.
  exists X0.
  split. { unfold X0. autorewrite with registrar_runs. rewrite Hlen. fold in1.
           apply resize_then_mean, resize_length. }
  split. { unfold X0. autorewrite with registrar_runs. rewrite Hlen. fold out1.
           apply resize_then_mean, resize_length. }
  split. { unfold X0, tune_adapter, mean_init.
           by destruct tune, (Nat.ltb 0 k). }
  split. { unfold X0, tune_adapter, mean_init.
           by destruct tune, (Nat.ltb 0 k). }
  by destruct (load_adapter_rows k pre X0).
Qed.

(** With a pretrained adapter the run asserts that START and END are both
    new: when one of them is in the vocabulary already, as on a second
    registration, the run raises the assertion error. *)
Theorem registrar_adapter_needs_new_markers (fresh_in fresh_out : nat -> list T)
    (tokenizer : Tokenizer) tune w (self : @CausalLM T) :
  DEFAULT_G_START_TOKEN ∈ tokenizer \/ DEFAULT_G_END_TOKEN ∈ tokenizer ->
  initialize_graph_tokenizer fresh_in fresh_out true tokenizer tune (Some w) self
  = Err AssertionError.
Proof.
  intros Hin.
  destruct (initialize_start_end_eq fresh_in fresh_out tokenizer tune (Some w) self)
    as (X & _ & _ & _ & _ & ->).
  set (tok1 := fst (add_tokens tokenizer [DEFAULT_GRAPH_PATCH_TOKEN])).
  assert (Hsub : forall t, t ∈ tokenizer -> t ∈ tok1).
  { intros t Ht. unfold tok1.
    destruct (add_tokens_spec tokenizer [DEFAULT_GRAPH_PATCH_TOKEN])
      as (a1 & -> & _). apply elem_of_app. by left. }
  assert (Hk : snd (add_tokens tok1 [DEFAULT_G_START_TOKEN; DEFAULT_G_END_TOKEN]) < 2).
  { apply (add_tokens_count tok1 [DEFAULT_G_START_TOKEN; DEFAULT_G_END_TOKEN]).
    destruct Hin as [Hs|He].
    - exists DEFAULT_G_START_TOKEN. split; [by left|by apply Hsub].
    - exists DEFAULT_G_END_TOKEN. split; [right; by left|by apply Hsub]. }
  unfold load_adapter_rows. destruct w as [d w].
  destruct (Nat.eqb_spec
              (snd (add_tokens tok1 [DEFAULT_G_START_TOKEN; DEFAULT_G_END_TOKEN])) 2);
    [lia|done].
Qed.

End RegistrarAdapter.

Section RegistrarAgain.

Context {T : Type} `{ST : Scalar T}.

Local Abbreviation tensor := (list (list T)).

Lemma has_token_false tok t : has_token tok t = false <-> t ∉ tok.
Proof.
  rewrite <- has_token_true. by destruct (has_token tok t).
Qed.

(** Both markers are new: they get the two ids after the vocabulary. *)
Lemma add_start_end_new tok1 :
  DEFAULT_G_START_TOKEN ∉ tok1 -> DEFAULT_G_END_TOKEN ∉ tok1 ->
  add_tokens tok1 [DEFAULT_G_START_TOKEN; DEFAULT_G_END_TOKEN]
  = (tok1 ++ [DEFAULT_G_START_TOKEN; DEFAULT_G_END_TOKEN], 2).
Proof.
  intros Hs He. apply has_token_false in Hs, He.
  cbn [add_tokens]. rewrite Hs, has_token_app, He. cbn.
  by rewrite <- app_assoc.
Qed.

Lemma markers_not_in_tok1 (tokenizer : Tokenizer) t :
  t <> DEFAULT_GRAPH_PATCH_TOKEN -> t ∉ tokenizer ->
  t ∉ fst (add_tokens tokenizer [DEFAULT_GRAPH_PATCH_TOKEN]).
Proof.
  intros Hne Hnot.
  destruct (add_tokens_spec tokenizer [DEFAULT_GRAPH_PATCH_TOKEN])
    as (a1 & -> & _ & Hsub & _).
  intros [Hin|Hin]%elem_of_app; [done|].
  apply Hsub in Hin. apply list_elem_of_singleton in Hin. done.
Qed.

(** The rows of a pretrained adapter. When START and END are both new, a
    checkpoint table of the shape of the input table gives its last two
    rows to them, a checkpoint of two rows gives both, and any other number
    of rows is refused; the output table keeps the mean rows, and the
    snapshot [orig_embeds_params], taken before, holds the mean rows too. *)
Theorem registrar_adapter_rows (fresh_in fresh_out : nat -> list T)
    (tokenizer : Tokenizer) (tune : bool) d (w : tensor) (self : @CausalLM T) :
  DEFAULT_G_START_TOKEN ∉ tokenizer ->
  DEFAULT_G_END_TOKEN ∉ tokenizer ->
  let tok1 := fst (add_tokens tokenizer [DEFAULT_GRAPH_PATCH_TOKEN]) in
  let in1 := resize fresh_in (length tok1) (input_embeddings self) in
  let out1 := resize fresh_out (length tok1) (output_embeddings self) in
  let run := initialize_graph_tokenizer fresh_in fresh_out true tokenizer tune
               (Some (d, w)) self in
  (d = embedding_dim self ->
   length w = length tok1 + 2 \/ length w = 2 ->
   exists self',
     run = Ok (self', tok1 ++ [DEFAULT_G_START_TOKEN; DEFAULT_G_END_TOKEN])
     /\ input_embeddings self' = in1 ++ drop (length w - 2) w
     /\ output_embeddings self'
        = out1 ++ replicate 2 (mean_dim0 (embedding_dim self) out1)
     /\ model_orig_embeds_params self'
        = (if tune
           then Some (in1 ++ replicate 2 (mean_dim0 (embedding_dim self) in1))
           else model_orig_embeds_params self))
  /\ (length w <> length tok1 + 2 -> length w <> 2 ->
      run = Err (ValueError "Unexpected embed_tokens_weight shape.")).
Proof.
  intros Hs He tok1 in1 out1 run.
  destruct (initialize_start_end_eq fresh_in fresh_out tokenizer tune
              (Some (d, w)) self)
    as (X & Hin & Hout & Hdim & Horig & Hrun).
  fold tok1 in1 out1 run in Hin, Hout, Hrun.
  rewrite add_start_end_new in Hin, Hout, Hrun
    by (apply markers_not_in_tok1; done).
  cbn [fst snd] in Hin, Hout, Hrun.
  assert (Hlen : length (input_embeddings X) = length tok1 + 2).
  { rewrite Hin, length_app, length_replicate. unfold in1.
    by rewrite resize_length. }
  assert (Htake : take (length (input_embeddings X) - 2) (input_embeddings X) = in1).
  { rewrite Hlen, Hin. replace (length tok1 + 2 - 2) with (length in1).
    - apply take_app_length.
    - unfold in1. rewrite resize_length. lia. }
  assert (Htok1 : 0 < length tok1).
  { pose proof (patch_in_tok1 tokenizer) as Hp. fold tok1 in Hp.
    destruct tok1; [by apply elem_of_nil in Hp|simpl; lia]. }
  split.
  - intros -> Hw. rewrite Hrun. unfold load_adapter_rows. cbn [Nat.eqb negb].
    rewrite Hdim, Nat.eqb_refl, Hlen.
    destruct Hw as [Hw|Hw].
    + rewrite Hw, Nat.eqb_refl. cbn [andb].
      eexists. split; [reflexivity|].
      cbn [input_embeddings output_embeddings model_orig_embeds_params
           with_vision_config with_input_embeddings].
      unfold assign_last_rows. rewrite Htake, Hout, Horig, Hin.
      rewrite <- Hw. done.
    + rewrite Hw. destruct (Nat.eqb_spec (length tok1 + 2) 2); [lia|].
      cbn [andb Nat.eqb].
      eexists. split; [reflexivity|].
      cbn [input_embeddings output_embeddings model_orig_embeds_params
           with_vision_config with_input_embeddings].
      unfold assign_last_rows. rewrite Htake, Hout, Horig, Hin.
      by rewrite Nat.sub_diag.
  - intros Hn H2. rewrite Hrun. unfold load_adapter_rows. cbn [Nat.eqb negb].
    rewrite Hlen.
    destruct (Nat.eqb_spec (length tok1 + 2) (length w)); [lia|]. cbn [andb].
    by destruct (Nat.eqb_spec (length w) 2).
Qed.

Lemma markers_in_result (fresh_in fresh_out : nat -> list T) se
    (tokenizer : Tokenizer) tune pre (self self' : @CausalLM T) tok' :
  initialize_graph_tokenizer fresh_in fresh_out se tokenizer tune pre self
  = Ok (self', tok') ->
  DEFAULT_GRAPH_PATCH_TOKEN ∈ tok'
  /\ (se = true ->
      DEFAULT_G_START_TOKEN ∈ tok' /\ DEFAULT_G_END_TOKEN ∈ tok').
Proof.
  intros Hrun. destruct se.
  - apply initialize_start_end_inv in Hrun as (-> & _).
    destruct (add_tokens_spec
                (fst (add_tokens tokenizer [DEFAULT_GRAPH_PATCH_TOKEN]))
                [DEFAULT_G_START_TOKEN; DEFAULT_G_END_TOKEN])
      as (added & -> & _ & _ & Hall).
    split; [|intros _; split].
    + apply elem_of_app. left. apply patch_in_tok1.
    + apply Hall. by left.
    + apply Hall. right. by left.
  - rewrite initialize_patch_only in Hrun.
    set (t1 := fst (add_tokens tokenizer [DEFAULT_GRAPH_PATCH_TOKEN])) in *.
    injection Hrun as _ <-. split; [apply patch_in_tok1|done].
Qed.

(** Without an adapter, a second registration in the same mode changes
    nothing: every marker is found in the vocabulary, no row is added and
    no row is rewritten. *)
Theorem registrar_idempotent (fresh_in fresh_out fresh_in' fresh_out' : nat -> list T)
    se (tokenizer : Tokenizer) tune (self self1 : @CausalLM T) tok1 :
  initialize_graph_tokenizer fresh_in fresh_out se tokenizer tune None self
  = Ok (self1, tok1) ->
  initialize_graph_tokenizer fresh_in' fresh_out' se tok1 tune None self1
  = Ok (self1, tok1).
Proof.
  intros Hrun.
  destruct (initialize_table_lengths _ _ _ _ _ _ _ _ _ Hrun) as [Hli Hlo].
  destruct (markers_in_result _ _ _ _ _ _ _ _ _ Hrun) as (Hp & Hse).
  assert (Hadd1 : add_tokens tok1 [DEFAULT_GRAPH_PATCH_TOKEN] = (tok1, 0)).
  { apply add_tokens_present. constructor; [|done]. by apply has_token_true. }
  destruct se.
  - destruct (Hse eq_refl) as [Hst Hen].
    assert (Hadd2 : add_tokens tok1 [DEFAULT_G_START_TOKEN; DEFAULT_G_END_TOKEN]
                    = (tok1, 0)).
    { apply add_tokens_present. repeat constructor; by apply has_token_true. }
    destruct (initialize_no_adapter_Ok fresh_in' fresh_out' true tok1 tune self1)
      as (self2 & tok2 & Hrun2).
    rewrite Hrun2.
    apply initialize_start_end_inv in Hrun
      as (Htok & X & self3 & Hin & Hout & Hdim & Horig & Hgi & Hgo & Hload & Hself1).
    apply initialize_start_end_inv in Hrun2
      as (Htok2 & X2 & self4 & Hin2 & Hout2 & Hdim2 & Horig2 & Hgi2 & Hgo2
          & Hload2 & Hself2).
    rewrite Hadd1 in Htok2, Hin2, Hout2, Hload2. cbn [fst snd] in *.
    rewrite Hadd2 in Htok2, Hin2, Hout2, Hload2. cbn [fst snd] in *.
    cbn [load_adapter_rows] in Hload, Hload2.
    injection Hload as <-. injection Hload2 as <-. subst tok2.
    rewrite <- Hli in Hin2 at 1. rewrite <- Hlo in Hout2 at 1.
    rewrite resize_same, app_nil_r in Hin2, Hout2.
    assert (Hi1 : input_embeddings self1 = input_embeddings X) by (by subst self1).
    assert (Ho1 : output_embeddings self1 = output_embeddings X) by (by subst self1).
    assert (Hd1 : embedding_dim self1 = embedding_dim X) by (by subst self1).
    assert (Hg1 : input_requires_grad self1 = input_requires_grad X)
      by (by subst self1).
    assert (Hg2 : output_requires_grad self1 = output_requires_grad X)
      by (by subst self1).
    assert (Hor1 : model_orig_embeds_params self1 = model_orig_embeds_params X)
      by (by subst self1).
    do 2 f_equal. rewrite Hself2. rewrite Hself1 at 1.
    apply CausalLM_ext; cbn.
    + by rewrite Hdim2.
    + by rewrite Hin2.
    + by rewrite Hout2.
    + rewrite Hgi2, Hg1, Hgi. by destruct tune.
    + rewrite Hgo2, Hg2, Hgo. by destruct tune.
    + rewrite Horig2, Hin2, Hi1, Hor1, Horig. by destruct tune.
    + done.
  - rewrite initialize_patch_only in Hrun. rewrite initialize_patch_only.
    rewrite Hadd1. cbn [fst].
    rewrite <- Hli at 1. rewrite <- Hlo at 1. rewrite !resize_same.
    set (t1 := fst (add_tokens tokenizer [DEFAULT_GRAPH_PATCH_TOKEN])) in *.
    injection Hrun as <- <-. done.
Qed.

End RegistrarAgain.

(** * Generation inputs *)

Section GenerationFacts.

Context {T : Type} `{ST : Scalar T} {G KV : Type}.

Local Abbreviation tensor := (list (list T)).
Local Abbreviation pyobj := (@pyobj T G KV).

(** The dictionary has five entries: the cache, [use_cache], the attention
    mask, [graph_data] wrapped in a list of one element ([[None]] when no
    graph is given), and either the token ids or, only when embeddings are
    given and the cache is [None], the embeddings.  No other keyword
    argument reaches the model. *)
Theorem generation_inputs_keys (input_ids : list (list Z))
    (past_key_values : option (list KV)) attention_mask
    (inputs_embeds : option (list tensor)) (kwargs kwargs' : gmap string pyobj) :
  let mi := prepare_inputs_for_generation input_ids past_key_values
              attention_mask inputs_embeds kwargs in
  let key := match inputs_embeds, past_key_values with
             | Some _, None => "inputs_embeds"
             | _, _ => "input_ids"
             end in
  dom mi = {[ key; "past_key_values"; "use_cache"; "attention_mask";
              "graph_data" ]}
  /\ size mi = 5
  /\ mi !! "graph_data" = Some (PyList [default PyNone (kwargs !! "graph_data")])
  /\ (kwargs' !! "graph_data" = kwargs !! "graph_data" ->
      kwargs' !! "use_cache" = kwargs !! "use_cache" ->
      prepare_inputs_for_generation input_ids past_key_values
        attention_mask inputs_embeds kwargs' = mi).
Proof.
  intros mi key.
  assert (Hdom : dom mi = {[ key; "past_key_values"; "use_cache";
                             "attention_mask"; "graph_data" ]}).
  { unfold mi, key, prepare_inputs_for_generation.
    destruct inputs_embeds as [e|], past_key_values as [c|];
      rewrite !dom_insert_L, dom_singleton_L; set_solver. }
  split; [done|]. split; [|split].
  - unfold mi, prepare_inputs_for_generation.
    destruct inputs_embeds as [e|], past_key_values as [c|];
      rewrite !map_size_insert_None, map_size_singleton;
      by simplify_map_eq.
  - unfold mi, prepare_inputs_for_generation. by rewrite lookup_insert_eq.
  - intros Hg Hu. unfold mi, prepare_inputs_for_generation, kwargs_get.
    by rewrite Hg, Hu.
Qed.

Lemma last_tokens_row (r : list Z) :
  r <> [] ->
  exists pre t, r = pre ++ [t] /\ drop (length r - 1) r = [t].
Proof.
  intros Hne. destruct (exists_last Hne) as (pre & t & ->).
  exists pre, t. split; [done|].
  rewrite length_app. simpl.
  replace (length pre + 1 - 1) with (length pre) by lia.
  by rewrite drop_app_length.
Qed.

(** A step with a non-empty cache feeds the model one token per sequence,
    the last one, also when embeddings are passed: they are ignored. *)
Theorem generation_step_feeds_last_token (input_ids : list (list Z))
    c cs attention_mask (inputs_embeds : option (list tensor))
    (kwargs : gmap string pyobj) :
  Forall (fun r => r <> []) input_ids ->
  let mi := prepare_inputs_for_generation input_ids (Some (c :: cs))
              attention_mask inputs_embeds kwargs in
  mi !! "inputs_embeds" = None
  /\ exists ids',
       mi !! "input_ids" = Some (PyTokens ids')
       /\ Forall2 (fun r r' => exists pre t, r = pre ++ [t] /\ r' = [t])
                  input_ids ids'.
Proof.
  intros Hne mi. unfold mi, prepare_inputs_for_generation. cbn [truthy].
  split.
  - destruct inputs_embeds; by simplify_map_eq.
  - exists (last_tokens input_ids). split.
    + destruct inputs_embeds; by simplify_map_eq.
    + unfold last_tokens. induction Hne as [|r rest Hr _ IH]; simpl; constructor.
      * destruct (last_tokens_row r Hr) as (pre & t & Heq & Hd). eauto.
      * done.
Qed.

End GenerationFacts.

Section GenerationStep.

Context {T : Type} `{ST : Scalar T} {G KV : Type}.

Local Abbreviation tensor := (list (list T)).
Local Abbreviation pyobj := (@pyobj T G KV).

Lemma forward_guard_false (self : GraphLlamaModel (G := G))
    (ids : list (list Z)) gd :
  negb (Nat.eqb (shape1 ids) 1) || training self = false ->
  forward self (Some ids) None gd
  = ([], Ok (map (map (embed_tokens self)) ids)).
Proof.
  intros Hguard. unfold forward. rewrite Hguard.
  by destruct (get_graph_tower self).
Qed.

Lemma shape1_last_tokens (input_ids : list (list Z)) :
  input_ids <> [] -> Forall (fun r => r <> []) input_ids ->
  shape1 (last_tokens input_ids) = 1.
Proof.
  intros Hne Hall. destruct input_ids as [|r rest]; [done|].
  inversion Hall as [|? ? Hr _]; subst. simpl.
  destruct (last_tokens_row r Hr) as (pre & t & _ & ->). done.
Qed.

(** A generation step with a non-empty cache, outside training mode: the
    token ids that [prepare_inputs_for_generation] hands over have sequence
    length 1, so [forward] skips the splicing for them whatever graph data
    comes along, calls neither encoder nor projector and passes on the
    embeddings of the last tokens. *)
Theorem generation_step_skips_splicing (self : GraphLlamaModel (G := G))
    (input_ids : list (list Z)) c cs attention_mask
    (inputs_embeds : option (list tensor)) (kwargs : gmap string pyobj) gd :
  input_ids <> [] ->
  Forall (fun r => r <> []) input_ids ->
  training self = false ->
  exists ids',
    prepare_inputs_for_generation input_ids (Some (c :: cs)) attention_mask
      inputs_embeds kwargs !! "input_ids" = Some (PyTokens ids')
    /\ shape1 ids' = 1
    /\ length ids' = length input_ids
    /\ forward self (Some ids') None gd
       = ([], Ok (map (map (embed_tokens self)) ids')).
Proof.
  intros Hne Hall Htrain. exists (last_tokens input_ids).
  pose proof (shape1_last_tokens input_ids Hne Hall) as Hshape.
  split; [|split; [done|split]].
  - unfold prepare_inputs_for_generation. cbn [truthy].
    destruct inputs_embeds; by simplify_map_eq.
  - unfold last_tokens. apply length_map.
  - apply forward_guard_false. by rewrite Hshape, Htrain.
Qed.

End GenerationStep.

(** * Logits and loss *)

Section LossFacts.

Context {T : Type} `{ST : Scalar T}.

Local Abbreviation tensor := (list (list T)).

Lemma lookup_concat_uniform {A} (ls : list (list A)) n b s t :
  Forall (fun l => length l = n) ls ->
  ls !! b = Some s -> t < n ->
  concat ls !! (b * n + t) = s !! t.
Proof.
  intros Hall. revert b. induction Hall as [|l ls Hl _ IH]; intros b Hb Ht.
  - done.
  - destruct b as [|b]; simpl in *.
    + injection Hb as <-. by rewrite lookup_app_l by lia.
    + rewrite lookup_app_r by lia.
      replace (n + b * n + t - length l) with (b * n + t) by lia.
      by apply IH.
Qed.

Lemma length_concat_uniform {A} (ls : list (list A)) n :
  Forall (fun l => length l = n) ls -> length (concat ls) = length ls * n.
Proof.
  induction 1 as [|l ls Hl _ IH]; simpl; [done|].
  rewrite length_app, IH. lia.
Qed.

(** The loss scores next-token prediction: for a batch of [B] sequences of
    length [L], the flattened logits and labels handed to the loss function
    have [B * (L - 1)] entries each, and entry [b * (L - 1) + t] pairs the
    logits of position [t] of sequence [b] with the label of position
    [t + 1]; the logits of the last position and the first label are not
    scored. *)
Theorem loss_pairs_next_token (logits : list tensor) (labels : list (list Z)) L :
  Forall (fun s => length s = L) logits ->
  Forall (fun l => length l = L) labels ->
  length (shift_logits logits) = length logits * (L - 1)
  /\ length (shift_labels labels) = length labels * (L - 1)
  /\ (forall b t s l,
        logits !! b = Some s -> labels !! b = Some l -> t < L - 1 ->
        shift_logits logits !! (b * (L - 1) + t) = s !! t
        /\ shift_labels labels !! (b * (L - 1) + t) = l !! (S t)).
Proof.
  intros Hlog Hlab.
  assert (Hlog' : Forall (fun s => length s = L - 1)
                    (map (fun s : tensor => take (length s - 1) s) logits)).
  { apply Forall_fmap. eapply Forall_impl; [exact Hlog|].
    intros s Hs. cbn beta in Hs. unfold compose. rewrite length_take. lia. }
  assert (Hlab' : Forall (fun l => length l = L - 1) (map (drop 1) labels)).
  { apply Forall_fmap. eapply Forall_impl; [exact Hlab|].
    intros l Hl. cbn beta in Hl. unfold compose. rewrite length_drop. lia. }
  split; [|split].
  - unfold shift_logits. rewrite (length_concat_uniform _ _ Hlog').
    by rewrite length_map.
  - unfold shift_labels. rewrite (length_concat_uniform _ _ Hlab').
    by rewrite length_map.
  - intros b t s l Hs Hl Ht. split.
    + unfold shift_logits.
      rewrite (lookup_concat_uniform _ (L - 1) b (take (length s - 1) s) t Hlog');
        [|by rewrite list_lookup_fmap, Hs|done].
      apply lookup_take_lt.
      rewrite Forall_forall in Hlog. rewrite (Hlog s); [done|].
      by apply list_elem_of_lookup_2 in Hs.
    + unfold shift_labels.
      rewrite (lookup_concat_uniform _ (L - 1) b (drop 1 l) t Hlab');
        [|by rewrite list_lookup_fmap, Hl|done].
      by rewrite lookup_drop.
Qed.

End LossFacts.

(** * Pretrained models and graph modules *)

(** ** Keys of an adapter checkpoint *)

Lemma string_app_cons x (a b : string) :
  (String x a ++ b)%string = String x (a ++ b).
Proof. done. Qed.

Lemma string_app_assoc (a b c : string) :
  ((a ++ b) ++ c)%string = (a ++ (b ++ c))%string.
Proof.
  induction a as [|x a IH]; [done|]. by rewrite !string_app_cons, IH.
Qed.

Lemma string_app_nil_r (a : string) : (a ++ "")%string = a.
Proof.
  induction a as [|x a IH]; [done|]. by rewrite string_app_cons, IH.
Qed.

Lemma last_segment_from_no_dot acc s :
  has_dot s = false -> last_segment_from acc s = (acc ++ s)%string.
Proof.
  revert acc. induction s as [|c s IH]; intros acc Hs.
  - by rewrite string_app_nil_r.
  - cbn [has_dot] in Hs. apply orb_false_iff in Hs as [Hc Hs].
    cbn [last_segment_from]. rewrite Hc, IH by done.
    by rewrite string_app_assoc.
Qed.

Lemma last_segment_from_dot acc p s :
  last_segment_from acc (p ++ String "."%char s)
  = last_segment_from EmptyString s.
Proof.
  revert acc. induction p as [|c p IH]; intros acc.
  - done.
  - rewrite string_app_cons. cbn [last_segment_from].
    destruct (Ascii.eqb c "."%char); apply IH.
Qed.

(** The key of an entry is what follows the last dot of its path. *)
Lemma last_segment_suffix p s :
  has_dot s = false -> last_segment (p ++ String "."%char s) = s.
Proof.
  intros Hs. unfold last_segment.
  by rewrite last_segment_from_dot, last_segment_from_no_dot.
Qed.

Lemma last_segment_plain s : has_dot s = false -> last_segment s = s.
Proof. intros Hs. unfold last_segment. by rewrite last_segment_from_no_dot. Qed.

(** ** Loading a pretrained model *)

Section PretrainedFacts.

Context {V P Clip : Type}.

Variable clip_load_state_dict : Clip -> gmap string P -> result Clip.
Variable model_name : gmap string V -> Clip.

Lemma drop_logit_scale (sd : gmap string P) :
  (if decide (is_Some (sd !! "logit_scale"))
   then delete "logit_scale" sd else sd)
  = delete "logit_scale" sd.
Proof.
  destruct (decide (is_Some (sd !! "logit_scale"))) as [|Hno]; [done|].
  symmetry. apply delete_id. by apply eq_None_not_Some.
Qed.

(** The checks come in the order of the code: a directory without
    [config.json] raises the assertion error whatever weights it holds,
    one with [config.json] and no [.pkl] file raises an index error.  Of
    the [.pkl] files only the first is read, and its entry [logit_scale]
    never reaches the model: a checkpoint with the entry loads as the
    checkpoint without it. *)
Theorem load_model_pretrained_checkpoint
    (fs fs' : string -> PretrainDir (V := V) (P := P)) path :
  (config_json (fs path) = None ->
   load_model_pretrained clip_load_state_dict fs model_name path
   = Err AssertionError)
  /\ (is_Some (config_json (fs path)) -> pkl_files (fs path) = [] ->
      load_model_pretrained clip_load_state_dict fs model_name path
      = Err IndexError)
  /\ (forall sd x rest rest',
        config_json (fs' path) = config_json (fs path) ->
        pkl_files (fs path) = sd :: rest ->
        pkl_files (fs' path) = <[ "logit_scale" := x ]> sd :: rest' ->
        load_model_pretrained clip_load_state_dict fs' model_name path
        = load_model_pretrained clip_load_state_dict fs model_name path).
Proof.
  split; [|split].
  - intros Hc. unfold load_model_pretrained. by rewrite Hc.
  - intros [c Hc] Hp. unfold load_model_pretrained. by rewrite Hc, Hp.
  - intros sd x rest rest' Hc Hp Hp'. unfold load_model_pretrained.
    rewrite Hc, Hp, Hp'. destruct (config_json (fs path)) as [c|]; [|done].
    unfold index. cbn [lookup list_lookup]. res_simpl.
    by rewrite !drop_logit_scale, delete_insert_eq.
Qed.

End PretrainedFacts.

(** ** The graph modules *)

Section GraphModulesFacts.

Context {T : Type} `{ST : Scalar T} {G V P Clip : Type}.

Variable MPNN : nat -> nat -> nat -> GraphTower (T := T) (G := G).
Variable GNN graph_transformer : gmap string V -> GraphTower (T := T) (G := G).
Variable load_state_dict :
  GraphTower (T := T) (G := G) -> gmap string P
  -> result (GraphTower (T := T) (G := G)).
Variable CLIP : gmap string V -> Clip.
Variable clip_load_state_dict : Clip -> gmap string P -> result Clip.
Variable clip_gnn_state_dict : Clip -> gmap string P.
Variable W_P_out_features : GraphTower (T := T) (G := G) -> option nat.
Variable init_weight : nat -> nat -> list (list T).
Variable init_bias : nat -> nat -> list T.
Variable fs : string -> PretrainDir (V := V) (P := P).

Local Abbreviation model_init :=
  (GraphLlamaModel_init MPNN GNN graph_transformer load_state_dict CLIP
     clip_load_state_dict clip_gnn_state_dict init_weight init_bias fs).

Local Abbreviation init_modules :=
  (initialize_graph_modules MPNN GNN graph_transformer load_state_dict CLIP
     clip_load_state_dict clip_gnn_state_dict W_P_out_features
     init_weight init_bias fs).

(** With a non-empty [fsdp] the call never returns: the encoder is stored
    as a list of one element, and the next statement reads [W_P] from the
    attribute, a list. *)
Theorem initialize_graph_modules_fsdp_raises (self : GraphModel) tag sel
    adapter x xs :
  exists err, init_modules self tag sel adapter (Some (x :: xs)) = Err err.
Proof.
  unfold initialize_graph_modules.
  match goal with
  | |- context [mbind _ ?m] => destruct m as [[tg|t|t rest]|err]
  end; res_simpl; eauto.
  destruct (gm_graph_tower self); res_simpl; eauto.
Qed.

(** An encoder that the model has is kept, whatever tag the call names,
    and so is a projector that the model has, whatever width the encoder
    reports: the tag, [use_graph_proj], the layer and the width
    [W_P.out_features] are recorded in the configuration, and only a
    missing projector is built, of that width. *)
Theorem initialize_graph_modules_keeps_modules (self : GraphModel) t tag sel
    fsdp :
  gm_graph_tower self = OneTower t ->
  fsdp = None \/ fsdp = Some [] ->
  init_modules self tag sel None fsdp
  = match W_P_out_features t with
    | None => Err AttributeError
    | Some ghs =>
        Ok {| gm_graph_tower := OneTower t;
              gm_graph_projector :=
                Some (match gm_graph_projector self with
                      | Some L => L
                      | None => new_Linear init_weight init_bias ghs
                                  (cfg_hidden_size (gm_config self))
                      end);
              gm_config :=
                set_config_proj sel ghs (set_config_tower tag (gm_config self)) |}
    end.
Proof.
  intros Ht Hfsdp. unfold initialize_graph_modules. rewrite Ht. res_simpl.
  destruct Hfsdp as [-> | ->]; res_simpl;
    by destruct (W_P_out_features t).
Qed.

(** The two places that build an encoder agree: on a model without
    encoder, [initialize_graph_modules] called with a tag builds the
    encoder that [__init__] builds for a configuration with that tag, and
    raises where [__init__] builds none (a tag that is none of the five). *)
Theorem initialize_graph_modules_builds_as_init (config : GConfig) tag proj sel m :
  model_init (set_config_tower tag config) = Ok m ->
  init_modules {| gm_graph_tower := NoTower;
                  gm_graph_projector := proj;
                  gm_config := config |} tag sel None None
  = match gm_graph_tower m with
    | OneTower t =>
        match W_P_out_features t with
        | None => Err AttributeError
        | Some ghs =>
            Ok {| gm_graph_tower := OneTower t;
                  gm_graph_projector :=
                    Some (match proj with
                          | Some L => L
                          | None => new_Linear init_weight init_bias ghs
                                      (cfg_hidden_size config)
                          end);
                  gm_config :=
                    set_config_proj sel ghs (set_config_tower tag config) |}
        end
    | _ => Err AttributeError
    end.
Proof.
  unfold GraphLlamaModel_init, initialize_graph_modules.
  cbn [gm_graph_tower gm_config gm_graph_projector set_config_tower
       cfg_graph_tower cfg_graph_hidden_size cfg_pretrain_graph_model_path
       cfg_use_graph_proj cfg_hidden_size].
  destruct (cfg_graph_hidden_size config) as [ghs|],
    (cfg_pretrain_graph_model_path config) as [path|],
    (cfg_use_graph_proj config) as [b|];
    cbn [getattr]; res_simpl;
    repeat (match goal with
            | |- context [String.eqb tag ?s] => destruct (String.eqb tag s)
            end); res_simpl; try done;
    try (destruct (load_model_pretrained clip_load_state_dict fs CLIP path)
           as [[clip args]|]; res_simpl; try done);
    try (match goal with
         | |- context [transfer_param_tograph ?a ?b ?c ?d] =>
             destruct (transfer_param_tograph a b c d); res_simpl; try done
         end);
    intros [= <-]; cbn [gm_graph_tower]; res_simpl;
    try done; by destruct (W_P_out_features _).
Qed.

End GraphModulesFacts.

Section AdapterFacts.

Context {T : Type} `{ST : Scalar T} {G V P Clip : Type}.

Variable MPNN : nat -> nat -> nat -> GraphTower (T := T) (G := G).
Variable GNN graph_transformer : gmap string V -> GraphTower (T := T) (G := G).
Variable load_state_dict :
  GraphTower (T := T) (G := G) -> gmap string P
  -> result (GraphTower (T := T) (G := G)).
Variable CLIP : gmap string V -> Clip.
Variable clip_load_state_dict : Clip -> gmap string P -> result Clip.
Variable clip_gnn_state_dict : Clip -> gmap string P.
Variable W_P_out_features : GraphTower (T := T) (G := G) -> option nat.
Variable init_weight : nat -> nat -> list (list T).
Variable init_bias : nat -> nat -> list T.
Variable fs : string -> PretrainDir (V := V) (P := P).

Local Abbreviation init_modules :=
  (initialize_graph_modules MPNN GNN graph_transformer load_state_dict CLIP
     clip_load_state_dict clip_gnn_state_dict W_P_out_features
     init_weight init_bias fs).

Lemma by_last_segment_weight_bias (pw pb : string) (w : list (list T)) (b : list T) :
  by_last_segment [((pw ++ ".weight")%string, Matrix w);
                   ((pb ++ ".bias")%string, Vector b)]
  = <[ "bias" := Vector b ]> (<[ "weight" := Matrix w ]> ∅).
Proof.
  unfold by_last_segment. cbn [fold_left fst snd].
  rewrite !last_segment_suffix by reflexivity. reflexivity.
Qed.

(** The entries of an adapter checkpoint are matched by the last segment
    of their dotted paths: whatever the prefixes, the tensors under
    [...weight] and [...bias] become the parameters of the projector when
    their shapes are those of the layer, and a bias of another length is
    refused. *)
Theorem initialize_graph_modules_adapter (self : GraphModel) t ghs L tag sel
    (pw pb : string) (w : list (list T)) (b : list T) :
  gm_graph_tower self = OneTower t ->
  W_P_out_features t = Some ghs ->
  gm_graph_projector self = Some L ->
  length w = out_features L ->
  Forall (fun r => length r = in_features L) w ->
  init_modules self tag sel
    (Some [((pw ++ ".weight")%string, Matrix w);
           ((pb ++ ".bias")%string, Vector b)]) None
  = if Nat.eqb (length b) (out_features L)
    then Ok {| gm_graph_tower := OneTower t;
               gm_graph_projector :=
                 Some {| in_features := in_features L;
                         out_features := out_features L;
                         weight := w;
                         bias := b |};
               gm_config :=
                 set_config_proj sel ghs (set_config_tower tag (gm_config self)) |}
    else Err (RuntimeError "Error(s) in loading state_dict").
Proof.
  intros Ht HW HL Hw Hrows. unfold initialize_graph_modules.
  rewrite Ht, HL. res_simpl. rewrite HW. cbn [getattr]. res_simpl.
  rewrite by_last_segment_weight_bias. unfold Linear_load_state_dict.
  rewrite lookup_insert_ne, lookup_insert_eq, lookup_insert_eq by done.
  rewrite !map_size_insert_None, map_size_empty by by simplify_map_eq.
  rewrite Hw, Nat.eqb_refl. cbn [Nat.eqb andb].
  assert (Hb : forallb (fun r => Nat.eqb (length r) (in_features L)) w = true).
  { apply forallb_forall. intros r Hr. apply Nat.eqb_eq.
    rewrite Forall_forall in Hrows. apply Hrows. by apply list_elem_of_In. }
  rewrite Hb, ?Nat.eqb_refl. cbn [andb].
  by destruct (Nat.eqb (length b) (out_features L)).
Qed.

End AdapterFacts.

(** * Evaluation of the further properties on concrete inputs *)

Lemma splice_batch_cursor_accounting_witness :
  length [[ex_row 71]; [ex_row 72]]
  = sum_list (map (consumed (ex_tc true)) [[5; 6; 7; 8]%Z; [101; 100; 102; 9]%Z]).
Proof.
  eapply (splice_batch_cursor_accounting (ex_tc true) false
            [[ex_row 71]; [ex_row 72]] []
            [[5; 6; 7; 8]%Z; [101; 100; 102; 9]%Z]
            [ex_embeds [10; 11; 12; 13]%Z; ex_embeds [20; 21; 22; 23]%Z]);
    reflexivity.
Defined.

Lemma splice_batch_shape_witness :
  exists out,
    splice_batch (ex_tc false) false [[ex_row 71; ex_row 72]; [ex_row 73]] []
      [[1; 100; 100; 2]%Z; [100; 3; 4; 5]%Z]
      [ex_embeds [10; 11; 12; 13]%Z; ex_embeds [20; 21; 22; 23]%Z] = Ok out
    /\ length out = 2
    /\ Forall (fun t => length t = 4) out.
Proof.
  eexists. split; [reflexivity|].
  apply (splice_batch_shape (ex_tc false) false
           [[ex_row 71; ex_row 72]; [ex_row 73]] []
           [[1; 100; 100; 2]%Z; [100; 3; 4; 5]%Z]
           [ex_embeds [10; 11; 12; 13]%Z; ex_embeds [20; 21; 22; 23]%Z]);
    [reflexivity | by repeat constructor | by repeat constructor | reflexivity].
Defined.

Lemma stack_never_fails_witness :
  exists st,
    splice_batch (ex_tc false) false [[ex_row 71; ex_row 72]; [ex_row 73]] []
      [[1; 100; 100; 2]%Z; [100; 3; 4; 5]%Z]
      [ex_embeds [10; 11; 12; 13]%Z; ex_embeds [20; 21; 22; 23]%Z]
    = if Nat.eqb (cur_graph_idx st) 2
      then Ok (new_input_embeds st) else Err AssertionError.
Proof.
  eexists.
  apply (stack_never_fails (ex_tc false) false
           [[ex_row 71; ex_row 72]; [ex_row 73]] []
           [[1; 100; 100; 2]%Z; [100; 3; 4; 5]%Z]
           [ex_embeds [10; 11; 12; 13]%Z; ex_embeds [20; 21; 22; 23]%Z] _ 4);
    [discriminate | reflexivity | by repeat constructor
    | by repeat constructor | reflexivity].
Defined.

Lemma text_only_batch_witness :
  splice_batch (ex_tc false) false [[ex_row 71]; [ex_row 72]] [ex_row 5]
    [[1; 2]%Z; [3; 4]%Z] [ex_embeds [10; 11]%Z; ex_embeds [20; 21]%Z]
  = if Nat.eqb 2 2
    then Ok [ex_embeds [10; 11]%Z; ex_embeds [20; 21]%Z]
    else Err AssertionError.
Proof.
  apply (text_only_batch Qc_ScalarLaws (ex_tc false) false
           [[ex_row 71]; [ex_row 72]] [ex_row 5]
           [[1; 2]%Z; [3; 4]%Z] [ex_embeds [10; 11]%Z; ex_embeds [20; 21]%Z] 2);
    [discriminate | reflexivity | by repeat constructor | by repeat constructor].
Defined.

Lemma start_end_last_region_spliced_witness :
  exists out : list (list Qc),
    splice_sample (ex_tc true) false [[ex_row 71]; [ex_row 72]] [] init_state
      ([101; 100; 102; 101; 100; 102]%Z, ex_embeds [10; 11; 12; 13; 14; 15]%Z)
    = Ok {| new_input_embeds := [] ++ [out];
            cur_graph_idx := 0 + length ([0] ++ [3]);
            cur_new_input_embeds := Some out |}
    /\ length out = 6
    /\ (forall i, i <= 3 -> out !! i = ex_embeds [10; 11; 12; 13; 14; 15]%Z !! i)
    /\ (forall j, j < 1 -> out !! (3 + 1 + j) = [ex_row 72] !! j)
    /\ (forall i, 3 + 1 + 1 <= i ->
                  out !! i = ex_embeds [10; 11; 12; 13; 14; 15]%Z !! i).
Proof.
  apply (start_end_last_region_spliced (ex_tc true) false
           [[ex_row 71]; [ex_row 72]] [] init_state
           [101; 100; 102; 101; 100; 102]%Z
           (ex_embeds [10; 11; 12; 13; 14; 15]%Z) [0] 3 [ex_row 72]);
    [reflexivity | simpl; lia | reflexivity | reflexivity | | reflexivity
    | reflexivity].
  intros j p Hj. destruct j as [|[|j]]; simpl in Hj; try discriminate;
    injection Hj as <-; eexists; split; reflexivity.
Defined.

Lemma forward_without_features_raises_witness :
  exists err,
    snd (forward (ex_model 128 false) (Some [[1; 2]%Z]) None
           (GraphList (OtherList 1))) = Err err.
Proof.
  apply (forward_without_features_raises (ex_model 128 false)
           (ex_tower 128 false) [[1; 2]%Z] None 1); reflexivity.
Defined.

Lemma registrar_marker_ids_witness :
  exists self' tok',
    initialize_graph_tokenizer ex_fresh ex_fresh true ["a"; "b"] false None ex_lm
    = Ok (self', tok')
    /\ length (input_embeddings self') = length tok'
    /\ length (output_embeddings self') = length tok'
    /\ use_graph_start_end (vision_config self') = true
    /\ (exists i, graph_patch_token (vision_config self') = Z.of_nat i
                  /\ tok' !! i = Some DEFAULT_GRAPH_PATCH_TOKEN
                  /\ i < length (input_embeddings self'))
    /\ (true = true ->
        (exists i, graph_start_token (vision_config self') = Z.of_nat i
                   /\ tok' !! i = Some DEFAULT_G_START_TOKEN
                   /\ i < length (input_embeddings self'))
        /\ (exists i, graph_end_token (vision_config self') = Z.of_nat i
                      /\ tok' !! i = Some DEFAULT_G_END_TOKEN
                      /\ i < length (input_embeddings self'))).
Proof.
  eexists _, _. split; [reflexivity|].
  apply (registrar_marker_ids ex_fresh ex_fresh true ["a"; "b"] false None ex_lm).
  reflexivity.
Defined.

Lemma registrar_keeps_existing_witness :
  exists self' tok',
    initialize_graph_tokenizer ex_fresh ex_fresh true ["a"; "b"] true None ex_lm
    = Ok (self', tok')
    /\ (exists added, tok' = ["a"; "b"] ++ added /\ length added <= 3)
    /\ (forall i, i < length ["a"; "b"] -> i < length (input_embeddings ex_lm) ->
                  input_embeddings self' !! i = input_embeddings ex_lm !! i)
    /\ (forall i, i < length ["a"; "b"] -> i < length (output_embeddings ex_lm) ->
                  output_embeddings self' !! i = output_embeddings ex_lm !! i).
Proof.
  eexists _, _. split; [reflexivity|].
  apply (registrar_keeps_existing ex_fresh ex_fresh true ["a"; "b"] true None ex_lm).
  reflexivity.
Defined.

Lemma registrar_adapter_needs_new_markers_witness :
  initialize_graph_tokenizer ex_fresh ex_fresh true ["a"; "<g_start>"] false
    (Some (1, [[q 50]; [q 60]])) ex_lm
  = Err AssertionError.
Proof.
  apply (registrar_adapter_needs_new_markers ex_fresh ex_fresh
           ["a"; "<g_start>"] false (1, [[q 50]; [q 60]]) ex_lm).
  left. apply elem_of_cons. right. apply elem_of_cons. by left.
Defined.

Lemma registrar_idempotent_witness :
  exists self1 tok1,
    initialize_graph_tokenizer ex_fresh ex_fresh true ["a"; "b"] true None ex_lm
    = Ok (self1, tok1)
    /\ initialize_graph_tokenizer ex_fresh ex_fresh true tok1 true None self1
       = Ok (self1, tok1).
Proof.
  eexists _, _. split; [reflexivity|].
  apply (registrar_idempotent ex_fresh ex_fresh ex_fresh ex_fresh true
           ["a"; "b"] true ex_lm).
  reflexivity.
Defined.

Lemma marker_not_in_ab (t : string) :
  t <> "a" -> t <> "b" -> t ∉ ["a"; "b"].
Proof.
  intros Ha Hb Hin.
  apply elem_of_cons in Hin as [->|Hin]; [done|].
  apply elem_of_cons in Hin as [->|Hin]; [done|].
  by apply elem_of_nil in Hin.
Qed.

Lemma registrar_adapter_rows_witness :
  (1 = embedding_dim ex_lm ->
   length [[q 50]; [q 60]]
   = length (fst (add_tokens ["a"; "b"] [DEFAULT_GRAPH_PATCH_TOKEN])) + 2
   \/ length [[q 50]; [q 60]] = 2 ->
   exists self',
     initialize_graph_tokenizer ex_fresh ex_fresh true ["a"; "b"] true
       (Some (1, [[q 50]; [q 60]])) ex_lm
     = Ok (self',
           fst (add_tokens ["a"; "b"] [DEFAULT_GRAPH_PATCH_TOKEN])
           ++ [DEFAULT_G_START_TOKEN; DEFAULT_G_END_TOKEN])
     /\ input_embeddings self'
        = resize ex_fresh
            (length (fst (add_tokens ["a"; "b"] [DEFAULT_GRAPH_PATCH_TOKEN])))
            (input_embeddings ex_lm)
          ++ drop (length [[q 50]; [q 60]] - 2) [[q 50]; [q 60]]
     /\ output_embeddings self'
        = resize ex_fresh
            (length (fst (add_tokens ["a"; "b"] [DEFAULT_GRAPH_PATCH_TOKEN])))
            (output_embeddings ex_lm)
          ++ replicate 2
               (mean_dim0 (embedding_dim ex_lm)
                  (resize ex_fresh
                     (length (fst (add_tokens ["a"; "b"]
                                     [DEFAULT_GRAPH_PATCH_TOKEN])))
                     (output_embeddings ex_lm)))
     /\ model_orig_embeds_params self'
        = (if true
           then Some
                  (resize ex_fresh
                     (length (fst (add_tokens ["a"; "b"]
                                     [DEFAULT_GRAPH_PATCH_TOKEN])))
                     (input_embeddings ex_lm)
                   ++ replicate 2
                        (mean_dim0 (embedding_dim ex_lm)
                           (resize ex_fresh
                              (length (fst (add_tokens ["a"; "b"]
                                              [DEFAULT_GRAPH_PATCH_TOKEN])))
                              (input_embeddings ex_lm))))
           else model_orig_embeds_params ex_lm))
  /\ (length [[q 50]; [q 60]]
      <> length (fst (add_tokens ["a"; "b"] [DEFAULT_GRAPH_PATCH_TOKEN])) + 2 ->
      length [[q 50]; [q 60]] <> 2 ->
      initialize_graph_tokenizer ex_fresh ex_fresh true ["a"; "b"] true
        (Some (1, [[q 50]; [q 60]])) ex_lm
      = Err (ValueError "Unexpected embed_tokens_weight shape.")).
Proof.
  apply (registrar_adapter_rows ex_fresh ex_fresh ["a"; "b"] true 1
           [[q 50]; [q 60]] ex_lm);
    apply marker_not_in_ab; discriminate.
Defined.

Lemma generation_step_feeds_last_token_witness :
  prepare_inputs_for_generation (T := Qc) (G := nat) (KV := unit)
    [[1; 2; 3]%Z; [4; 5; 6]%Z] (Some [tt]) None None ∅ !! "inputs_embeds" = None
  /\ exists ids',
       prepare_inputs_for_generation (T := Qc) (G := nat) (KV := unit)
         [[1; 2; 3]%Z; [4; 5; 6]%Z] (Some [tt]) None None ∅ !! "input_ids"
       = Some (PyTokens ids')
       /\ Forall2 (fun r r' => exists pre t, r = pre ++ [t] /\ r' = [t])
                  [[1; 2; 3]%Z; [4; 5; 6]%Z] ids'.
Proof.
  apply (generation_step_feeds_last_token (T := Qc) (G := nat) (KV := unit)
           [[1; 2; 3]%Z; [4; 5; 6]%Z] tt [] None None ∅).
  by repeat constructor.
Defined.

Lemma generation_step_skips_splicing_witness :
  exists ids',
    prepare_inputs_for_generation (T := Qc) (G := nat) (KV := unit)
      [[1; 100; 3]%Z] (Some [tt]) None None ∅ !! "input_ids"
    = Some (PyTokens ids')
    /\ shape1 ids' = 1
    /\ length ids' = length [[1; 100; 3]%Z]
    /\ forward (ex_model 128 false) (Some ids') None (GraphList (DataList [2]))
       = ([], Ok (map (map (embed_tokens (ex_model 128 false))) ids')).
Proof.
  apply (generation_step_skips_splicing (KV := unit) (ex_model 128 false)
           [[1; 100; 3]%Z] tt [] None None ∅ (GraphList (DataList [2])));
    [discriminate | by repeat constructor | reflexivity].
Defined.

Lemma loss_pairs_next_token_witness :
  length (shift_logits [ex_embeds [1; 2; 3]%Z; ex_embeds [4; 5; 6]%Z])
  = length [ex_embeds [1; 2; 3]%Z; ex_embeds [4; 5; 6]%Z] * (3 - 1)
  /\ length (shift_labels [[7; 8; 9]%Z; [10; 11; 12]%Z])
     = length [[7; 8; 9]%Z; [10; 11; 12]%Z] * (3 - 1)
  /\ (forall b t s l,
        [ex_embeds [1; 2; 3]%Z; ex_embeds [4; 5; 6]%Z] !! b = Some s ->
        [[7; 8; 9]%Z; [10; 11; 12]%Z] !! b = Some l -> t < 3 - 1 ->
        shift_logits [ex_embeds [1; 2; 3]%Z; ex_embeds [4; 5; 6]%Z]
          !! (b * (3 - 1) + t) = s !! t
        /\ shift_labels [[7; 8; 9]%Z; [10; 11; 12]%Z] !! (b * (3 - 1) + t)
           = l !! (S t)).
Proof.
  apply (loss_pairs_next_token
           [ex_embeds [1; 2; 3]%Z; ex_embeds [4; 5; 6]%Z]
           [[7; 8; 9]%Z; [10; 11; 12]%Z] 3);
    by repeat constructor.
Defined.

Lemma initialize_graph_modules_keeps_modules_witness :
  initialize_graph_modules ex_MPNN ex_encoder ex_encoder ex_load ex_CLIP
    ex_clip_load ex_clip_state ex_W_P ex_init_weight ex_init_bias ex_fs
    ex_graph_model "MPNN" (-2) None None
  = match ex_W_P (ex_tower 128 false) with
    | None => Err AttributeError
    | Some ghs =>
        Ok {| gm_graph_tower := OneTower (ex_tower 128 false);
              gm_graph_projector :=
                Some (match gm_graph_projector ex_graph_model with
                      | Some L => L
                      | None => new_Linear ex_init_weight ex_init_bias ghs
                                  (cfg_hidden_size (gm_config ex_graph_model))
                      end);
              gm_config :=
                set_config_proj (-2) ghs
                  (set_config_tower "MPNN" (gm_config ex_graph_model)) |}
    end.
Proof.
  apply (initialize_graph_modules_keeps_modules ex_MPNN ex_encoder ex_encoder
           ex_load ex_CLIP ex_clip_load ex_clip_state ex_W_P ex_init_weight
           ex_init_bias ex_fs ex_graph_model (ex_tower 128 false) "MPNN" (-2) None);
    [reflexivity | by left].
Defined.

Lemma initialize_graph_modules_builds_as_init_witness :
  exists m,
    GraphLlamaModel_init ex_MPNN ex_encoder ex_encoder ex_load ex_CLIP
      ex_clip_load ex_clip_state ex_init_weight ex_init_bias ex_fs
      (set_config_tower "clip_gt" ex_config) = Ok m
    /\ initialize_graph_modules ex_MPNN ex_encoder ex_encoder ex_load ex_CLIP
         ex_clip_load ex_clip_state ex_W_P ex_init_weight ex_init_bias ex_fs
         {| gm_graph_tower := NoTower;
            gm_graph_projector := None;
            gm_config := ex_config |} "clip_gt" (-2) None None
       = match gm_graph_tower m with
         | OneTower t =>
             match ex_W_P t with
             | None => Err AttributeError
             | Some ghs =>
                 Ok {| gm_graph_tower := OneTower t;
                       gm_graph_projector :=
                         Some (new_Linear ex_init_weight ex_init_bias ghs
                                 (cfg_hidden_size ex_config));
                       gm_config :=
                         set_config_proj (-2) ghs
                           (set_config_tower "clip_gt" ex_config) |}
             end
         | _ => Err AttributeError
         end.
Proof.
  eexists. split; [reflexivity|].
  apply (initialize_graph_modules_builds_as_init ex_MPNN ex_encoder ex_encoder
           ex_load ex_CLIP ex_clip_load ex_clip_state ex_W_P ex_init_weight
           ex_init_bias ex_fs ex_config "clip_gt" None (-2)).
  reflexivity.
Defined.

Lemma initialize_graph_modules_adapter_witness :
  initialize_graph_modules ex_MPNN ex_encoder ex_encoder ex_load ex_CLIP
    ex_clip_load ex_clip_state ex_W_P ex_init_weight ex_init_bias ex_fs
    ex_graph_model "clip_gt" (-2)
    (Some [(("model.graph_projector" ++ ".weight")%string,
            Matrix [[q 1; q 2; q 3]; [q 4; q 5; q 6]]);
           (("model.graph_projector" ++ ".bias")%string, Vector [q 7; q 8])])
    None
  = if Nat.eqb (length [q 7; q 8])
         (out_features (new_Linear ex_init_weight ex_init_bias 3 2))
    then Ok {| gm_graph_tower := OneTower (ex_tower 128 false);
               gm_graph_projector :=
                 Some {| in_features :=
                           in_features (new_Linear ex_init_weight ex_init_bias 3 2);
                         out_features :=
                           out_features (new_Linear ex_init_weight ex_init_bias 3 2);
                         weight := [[q 1; q 2; q 3]; [q 4; q 5; q 6]];
                         bias := [q 7; q 8] |};
               gm_config :=
                 set_config_proj (-2) 128
                   (set_config_tower "clip_gt" (gm_config ex_graph_model)) |}
    else Err (RuntimeError "Error(s) in loading state_dict").
Proof.
  apply (initialize_graph_modules_adapter ex_MPNN ex_encoder ex_encoder
           ex_load ex_CLIP ex_clip_load ex_clip_state ex_W_P ex_init_weight
           ex_init_bias ex_fs ex_graph_model (ex_tower 128 false) 128
           (new_Linear ex_init_weight ex_init_bias 3 2) "clip_gt" (-2)
           "model.graph_projector" "model.graph_projector"
           [[q 1; q 2; q 3]; [q 4; q 5; q 6]] [q 7; q 8]);
    [reflexivity | reflexivity | reflexivity | reflexivity
    | by repeat constructor].
Defined.
